(** * Input-value coercion of graphql-js ([src/utilities/coerceInputValue.js])

    A shallow embedding of [coerceInputValue], [defaultOnError] and
    [coerceInputValueImpl], and the properties of the coercion engine:
    dispatch over the five kinds of input type, null handling, list
    promotion, input-object defaults, unknown-field detection and the
    order in which errors reach the [onError] callback. *)

From Stdlib Require Import List String Ascii ZArith Bool Arith Lia DecimalString.
Import ListNotations.
Open Scope string_scope.
Set Warnings "-register-all".

(** ** JavaScript values

    The runtime values the engine walks.  Numbers are the integer-valued
    ones.  An array is the list of its elements (dense, in index order).
    An object is an ordinary object, given by the list of its own
    enumerable properties in the order [Object.keys] lists them; what it
    has no property of its own for, it inherits from [Object.prototype]
    (see [getProp]).  A function is a value too: it is what an object
    inherits under names such as [constructor]. *)

Inductive value : Type :=
| JUndefined
| JNull
| JBool (b : bool)
| JNum (n : Z)
| JStr (s : string)
| JArr (items : list value)
| JObj (props : list (string * value))
| JFunction (name : string).

(** [v == null]: true of [null] and of [undefined], of nothing else. *)
Definition isNullish (v : value) : bool :=
  match v with
  | JUndefined | JNull => true
  | _ => false
  end.

(** [v === undefined]. *)
Definition isUndefined (v : value) : bool :=
  match v with
  | JUndefined => true
  | _ => false
  end.

(** [String(v)], the host language's conversion to a string, on the
    values it returns a string for that depends on nothing but the value
    ([stringConvertible] below): a primitive, with a number printed in
    full; an object that has no [toString] of its own, printed by the
    one it inherits from [Object.prototype]; an array of such values,
    its elements joined by commas.  On an object with a [toString] of
    its own the conversion calls that property and [valueOf] and throws
    a TypeError when neither is a function that returns a primitive, a
    function prints as its source text, and a number beyond 2^53 prints
    rounded or with an exponent: on these the string given here is only
    a stand-in. *)
Fixpoint JS_String (v : value) : string :=
  match v with
  | JUndefined => "undefined"
  | JNull => "null"
  | JBool true => "true"
  | JBool false => "false"
  | JNum n => NilZero.string_of_int (Z.to_int n)
  | JStr s => s
  | JArr items =>
      String.concat ","
        (map (fun x => if isNullish x then "" else JS_String x) items)
  | JObj _ => "[object Object]"
  | JFunction name => "function " ++ name ++ "() { [native code] }"
  end.


(** Own-property lookup in a property list. *)
Fixpoint lookupProp (props : list (string * value)) (key : string)
  : option value :=
  match props with
  | [] => None
  | (k, x) :: rest => if String.eqb k key then Some x else lookupProp rest key
  end.

(** [Object.keys(obj)]. *)
Definition Object_keys (obj : value) : list string :=
  match obj with
  | JObj props => map fst props
  | _ => []
  end.

(** Defining or updating a property of a property list: an existing
    property keeps its place and takes the new value, a new one is added
    at the end (the keys written are field names, none of which is an
    array index). *)
Fixpoint setProp (props : list (string * value)) (key : string) (x : value)
  : list (string * value) :=
  match props with
  | [] => [(key, x)]
  | (k, y) :: rest =>
      if String.eqb k key then (k, x) :: rest
      else (k, y) :: setProp rest key x
  end.

(** [obj[key] = x] on an object that started as [{}] and was only written
    to in this way.  Under the key [__proto__] the write goes to the
    setter the object inherits from [Object.prototype]: it adds no
    property (it replaces the prototype of the object when [x] is an
    object or [null]; the list of own properties stays as it is).  Under
    any other key it defines or updates the property. *)
Definition assignProp (props : list (string * value)) (key : string)
           (x : value) : list (string * value) :=
  if String.eqb key "__proto__" then props else setProp props key x.

(** Modelled from the spec: [jsutils/isObjectLike] is not part of the
    sources at hand; the spec calls its positive case "a keyed-record-like
    structure", which among these values is the object. *)
Definition isObjectLike (v : value) : bool :=
  match v with
  | JObj _ => true
  | _ => false
  end.

(** Modelled from the spec: [isCollection] comes from the [iterall]
    package; the spec calls its positive case "sequence-like", which among
    these values is the array. *)
Definition isCollection (v : value) : bool :=
  match v with
  | JArr _ => true
  | _ => false
  end.

(** The elements [forEach] visits, in order. *)
Definition collectionItems (v : value) : list value :=
  match v with
  | JArr items => items
  | _ => []
  end.

(** ** Errors *)

(** A thrown value that is not a [GraphQLError]; the engine reads its
    message. *)
Record JSError : Type := mkJSError { jsMessage : string }.

(** The two fields of a [GraphQLError] the engine populates: the message
    and the original error (the sixth argument of the constructor). *)
Record GraphQLError : Type := mkGraphQLError {
  message : string;
  originalError : option JSError
}.

(** [new GraphQLError(msg)]. *)
Definition newGraphQLError (msg : string) : GraphQLError :=
  mkGraphQLError msg None.

(** What a [throw] carries, as far as the engine looks at it:
    [error instanceof GraphQLError] tells the two apart.  [ThrownError e]
    is any other thrown value on which the engine's
    [... + error.message] evaluates, [jsMessage e] being the text it
    appends.  A thrown [null] or [undefined], on which reading [.message]
    raises a TypeError of the host, is not among these. *)
Inductive Thrown : Type :=
| ThrownGraphQLError (e : GraphQLError)
| ThrownError (e : JSError).

(** A call of [parseValue] either returns a value or throws. *)
Inductive ParseResult : Type :=
| Returned (v : value)
| Raised (t : Thrown).

(** ** Input types ([type/definition]) *)

Record GraphQLEnumValue : Type := mkEnumValue {
  enumValueName : string;
  enumValueValue : value
}.

(** The five kinds of input type.  An input field carries its name, its
    type and its default value, [undefined] when it declares none.  The
    field map of an input object ([getFields()]) is the list of its fields
    in insertion order; its keys are the field names, so the names of a
    type built by the source are distinct, which the properties that need
    it assume as [NoDup].  A type is a finite tree: an input object does
    not contain itself. *)
Inductive GraphQLInputType : Type :=
| GraphQLNonNull (ofType : GraphQLInputType)
| GraphQLList (ofType : GraphQLInputType)
| GraphQLInputObjectType (name : string) (fields : list GraphQLInputField)
| GraphQLScalarType (name : string) (parseValue : value -> ParseResult)
| GraphQLEnumType (name : string) (values : list GraphQLEnumValue)
with GraphQLInputField : Type :=
| InputField (name : string) (type : GraphQLInputType) (defaultValue : value).

Definition fieldName (f : GraphQLInputField) : string :=
  match f with InputField name _ _ => name end.

Definition fieldType (f : GraphQLInputField) : GraphQLInputType :=
  match f with InputField _ type _ => type end.

Definition fieldDefaultValue (f : GraphQLInputField) : value :=
  match f with InputField _ _ defaultValue => defaultValue end.

Definition isNonNullType (type : GraphQLInputType) : bool :=
  match type with
  | GraphQLNonNull _ => true
  | _ => false
  end.

(** [fieldDefs[fieldName]]: the field declared under that name.
    Modelled from the spec: the field map is not part of the sources at
    hand; the spec has a key "correspond to a declared field" or not, so
    a read of the map finds the declared fields and nothing else. *)
Fixpoint lookupField (fieldDefs : list GraphQLInputField) (key : string)
  : option GraphQLInputField :=
  match fieldDefs with
  | [] => None
  | f :: rest =>
      if String.eqb (fieldName f) key then Some f else lookupField rest key
  end.

(** Modelled from the spec: [GraphQLEnumType.getValue] is not part of the
    sources at hand; the spec has the input "match a declared value's name
    exactly". *)
Fixpoint getValue (values : list GraphQLEnumValue) (key : string)
  : option GraphQLEnumValue :=
  match values with
  | [] => None
  | ev :: rest =>
      if String.eqb (enumValueName ev) key then Some ev else getValue rest key
  end.

(** ** Paths ([jsutils/Path]) *)

Inductive PathKey : Type :=
| KeyName (s : string)
| KeyIndex (i : nat).

(** Modelled from the spec: a path node holds the previous node, if any,
    and a key. *)
Inductive Path : Type :=
| mkPath (prev : option Path) (key : PathKey).

(** Modelled from the spec: [extend(path, key)] allocates one node. *)
Definition addPath (prev : option Path) (key : PathKey) : Path :=
  mkPath prev key.

Fixpoint flattened (curr : Path) : list PathKey :=
  match curr with
  | mkPath prev key =>
      key :: match prev with
             | Some p => flattened p
             | None => []
             end
  end.

(** Modelled from the spec: [toSequence(path)] walks from the leaf to the
    root and reverses. *)
Definition pathToArray (path : option Path) : list PathKey :=
  rev (match path with
       | Some p => flattened p
       | None => []
       end).

(** ** The callback and its effects

    [onError] runs for its effects: it may update state of the caller's
    (a list it appends to, say) and it may throw.  A computation is a
    function of the caller's state that ends in a result and a new state,
    or in a thrown value.  The values and types under coercion are data:
    the engine does not change them, and neither does a callback. *)

Inductive Outcome (A : Type) : Type :=
| Threw (t : Thrown)
| Done (a : A).
Arguments Threw {A} t.
Arguments Done {A} a.

Definition M (S A : Type) : Type := S -> Outcome (A * S).

Definition ret {S A : Type} (a : A) : M S A := fun s => Done (a, s).

Definition bind {S A B : Type} (m : M S A) (k : A -> M S B) : M S B :=
  fun s =>
    match m s with
    | Threw t => Threw t
    | Done (a, s') => k a s'
    end.

Definition throw {S A : Type} (t : Thrown) : M S A := fun _ => Threw t.

Declare Scope js_scope.
Delimit Scope js_scope with js.
Notation "x <- m ;; k" := (bind m (fun x => k))
  (at level 61, m at next level, right associativity) : js_scope.
Notation "m ;; k" := (bind m (fun _ => k))
  (at level 61, right associativity) : js_scope.
Open Scope js_scope.

Definition OnErrorCB (S : Type) : Type :=
  list PathKey -> value -> GraphQLError -> M S unit.

(** ** Collaborators outside the file, and the host

    Value and type rendering, the suggestion ranking, the rendering of a
    suggestion list and of a path are taken as given.  [didYouMean] has an
    optional first argument (the sub-message).  [objectPrototype key] is
    what a read of [key] finds on [Object.prototype] in the running
    realm: a function under [constructor], [toString], [valueOf],
    [hasOwnProperty] and the like, [undefined] under most names. *)
Class Collaborators : Type := {
  inspect : value -> string;
  inspectType : GraphQLInputType -> string;
  suggestionList : string -> list string -> list string;
  didYouMean : option string -> list string -> string;
  printPathArray : list PathKey -> string;
  objectPrototype : string -> value;
  (** Modelled from the spec: a suggestion is "rendered only when at least
      one candidate clears its similarity threshold". *)
  didYouMean_nil : forall subMessage, didYouMean subMessage [] = ""
}.

(** [obj[key]], a read through the prototype chain: the object's own
    property if it has one under the key, and otherwise what
    [Object.prototype] holds under it. *)
Definition getProp {ext : Collaborators} (obj : value) (key : string)
  : value :=
  match obj with
  | JObj props =>
      match lookupProp props key with
      | Some x => x
      | None => objectPrototype key
      end
  | _ => JUndefined
  end.

(** ** The engine *)

Section Engine.
Context {ext : Collaborators}.

(** The loop of [forEach] over a collection: one [push] per element. *)
Section ForEach.
Context {S : Type}.
Variable callback : value -> nat -> M S value.

Fixpoint forEach (collection : list value) (index : nat)
         (coercedValue : list value) : M S (list value) :=
  match collection with
  | [] => ret coercedValue
  | itemValue :: rest =>
      r <- callback itemValue index ;;
      forEach rest (Datatypes.S index) (coercedValue ++ [r])
  end.
End ForEach.

(** A [for (const x of xs)] loop whose body updates an accumulator. *)
Section ForOf.
Context {S A B : Type}.
Variable body : A -> B -> M S B.

Fixpoint forOf (xs : list A) (acc : B) : M S B :=
  match xs with
  | [] => ret acc
  | x :: rest => acc' <- body x acc ;; forOf rest acc'
  end.
End ForOf.

(** The double-quote character, and a string between two of them. *)
Definition dquote : string := String (ascii_of_nat 34) EmptyString.

Definition quoted (s : string) : string := dquote ++ s ++ dquote.

(** The call [type.parseValue(inputValue)] inside its [try] block is a
    step of the run: [invoke parseValue inputValue] yields what the call
    returns or throws.  [callParseValue] is the call and nothing else;
    another [invoke] may also record that the call was made. *)
Definition Invoke (S : Type) : Type :=
  (value -> ParseResult) -> value -> M S ParseResult.

Definition callParseValue {S : Type} : Invoke S :=
  fun parseValue inputValue => ret (parseValue inputValue).

(** [coerceInputValueImpl], branch by branch in the order of the source,
    with the way [parseValue] is called as a parameter; the engine itself
    is [coerceInputValueImplWith callParseValue], written
    [coerceInputValueImpl] below.  The structural recursion is on the
    type; [return;] yields [undefined].  The closing
    [invariant(false, ...)] has no counterpart: the five kinds are all
    the types there are. *)
Fixpoint coerceInputValueImplWith {S : Type} (invoke : Invoke S)
         (inputValue : value) (type : GraphQLInputType)
         (onError : OnErrorCB S) (path : option Path) {struct type}
  : M S value :=
  let coerceInputValueImpl := coerceInputValueImplWith invoke in
  match type with
  | GraphQLNonNull ofType =>
      if negb (isNullish inputValue) then
        coerceInputValueImpl inputValue ofType onError path
      else
        onError (pathToArray path) inputValue
          (newGraphQLError
             ("Expected non-nullable type " ++ quoted (inspectType type)
              ++ " not to be null.")) ;;
        ret JUndefined
  | GraphQLList itemType =>
      if isNullish inputValue then ret JNull
      else
        if isCollection inputValue then
          coercedValue <-
            forEach
              (fun itemValue index =>
                 coerceInputValueImpl itemValue itemType onError
                   (Some (addPath path (KeyIndex index))))
              (collectionItems inputValue) 0 [] ;;
          ret (JArr coercedValue)
        else
          r <- coerceInputValueImpl inputValue itemType onError path ;;
          ret (JArr [r])
  | GraphQLInputObjectType name fieldDefs =>
      if isNullish inputValue then ret JNull
      else if negb (isObjectLike inputValue) then
        onError (pathToArray path) inputValue
          (newGraphQLError
             ("Expected type " ++ quoted name ++ " to be an object.")) ;;
        ret JUndefined
      else
        coercedValue <-
          forOf
            (fun field coercedValue =>
               let fieldValue := getProp inputValue (fieldName field) in
               if isUndefined fieldValue then
                 if negb (isUndefined (fieldDefaultValue field)) then
                   ret (assignProp coercedValue (fieldName field)
                          (fieldDefaultValue field))
                 else if isNonNullType (fieldType field) then
                   let typeStr := inspectType (fieldType field) in
                   onError (pathToArray path) inputValue
                     (newGraphQLError
                        ("Field " ++ quoted (fieldName field)
                         ++ " of required type " ++ quoted typeStr
                         ++ " was not provided.")) ;;
                   ret coercedValue
                 else ret coercedValue
               else
                 r <- coerceInputValueImpl fieldValue (fieldType field)
                        onError
                        (Some (addPath path (KeyName (fieldName field)))) ;;
                 ret (assignProp coercedValue (fieldName field) r))
            fieldDefs [] ;;
        forOf
          (fun fieldName' (_ : unit) =>
             match lookupField fieldDefs fieldName' with
             | Some _ => ret tt
             | None =>
                 let suggestions :=
                   suggestionList fieldName' (map fieldName fieldDefs) in
                 onError (pathToArray path) inputValue
                   (newGraphQLError
                      ("Field " ++ quoted fieldName'
                       ++ " is not defined by type " ++ quoted name ++ "."
                       ++ didYouMean None suggestions))
             end)
          (Object_keys inputValue) tt ;;
        ret (JObj coercedValue)
  | GraphQLScalarType name parseValue =>
      if isNullish inputValue then ret JNull
      else
        parseResult <- invoke parseValue inputValue ;;
        match parseResult with
        | Raised (ThrownGraphQLError error) =>
            onError (pathToArray path) inputValue error ;;
            ret JUndefined
        | Raised (ThrownError error) =>
            onError (pathToArray path) inputValue
              (mkGraphQLError
                 ("Expected type " ++ quoted name ++ ". "
                  ++ jsMessage error)
                 (Some error)) ;;
            ret JUndefined
        | Returned parseResult =>
            (if isUndefined parseResult then
               onError (pathToArray path) inputValue
                 (newGraphQLError ("Expected type " ++ quoted name ++ "."))
             else ret tt) ;;
            ret parseResult
        end
  | GraphQLEnumType name values =>
      if isNullish inputValue then ret JNull
      else
        match
          (match inputValue with
           | JStr s => getValue values s (* typeof inputValue === 'string' *)
           | _ => None
           end)
        with
        | Some enumValue => ret (enumValueValue enumValue)
        | None =>
            let suggestions :=
              suggestionList (JS_String inputValue)
                (map enumValueName values) in
            onError (pathToArray path) inputValue
              (newGraphQLError
                 ("Expected type " ++ quoted name ++ "."
                  ++ didYouMean (Some "the enum value") suggestions)) ;;
            ret JUndefined
        end
  end.

(** [defaultOnError]: prefix the message and throw the error. *)
Definition defaultOnError {S : Type} : OnErrorCB S :=
  fun path invalidValue error =>
    let errorPrefix := "Invalid value " ++ inspect invalidValue in
    let errorPrefix :=
      if Nat.ltb 0 (List.length path)
      then errorPrefix ++ " at " ++ dquote ++ "value" ++ printPathArray path
           ++ dquote
      else errorPrefix in
    throw
      (ThrownGraphQLError
         (mkGraphQLError (errorPrefix ++ ": " ++ message error)
            (originalError error))).

(** [coerceInputValue]: the optional callback defaults to
    [defaultOnError]; the walk starts with no path. *)
Definition coerceInputValue {S : Type} (inputValue : value)
           (type : GraphQLInputType) (onError : option (OnErrorCB S))
  : M S value :=
  coerceInputValueImplWith callParseValue inputValue type
    (match onError with
     | Some cb => cb
     | None => defaultOnError
     end)
    None.

End Engine.

(** The engine: [parseValue] is called, and that is all. *)
Abbreviation coerceInputValueImpl :=
  (coerceInputValueImplWith callParseValue).

Open Scope list_scope.

(** ** Error reports and the collecting callback *)

Record ErrorReport : Type := mkReport {
  reportPath : list PathKey;
  invalidValue : value;
  reportError : GraphQLError
}.

(** The callback of a caller who wants every error: it appends the report
    to a list and returns. *)
Definition collectErrors : OnErrorCB (list ErrorReport) :=
  fun path v error s => Done (tt, s ++ [mkReport path v error]).

(** Feeding a list of reports to a callback, in order, until it throws. *)
Fixpoint replay {S A : Type} (onError : OnErrorCB S)
         (reports : list ErrorReport) (r : A) : M S A :=
  match reports with
  | [] => ret r
  | e :: rest =>
      onError (reportPath e) (invalidValue e) (reportError e) ;;
      replay onError rest r
  end.

(** Results and reports of a loop whose body gets the element and its
    index. *)
Fixpoint indexedMap {A B : Type} (f : A -> nat -> B) (xs : list A)
         (index : nat) : list B :=
  match xs with
  | [] => []
  | x :: rest => f x index :: indexedMap f rest (S index)
  end.

Section Collected.
Context {ext : Collaborators}.

(** Result and reports of a coercion under [collectErrors]. *)
Definition collected (inputValue : value) (type : GraphQLInputType)
           (path : option Path) : value * list ErrorReport :=
  match coerceInputValueImpl inputValue type collectErrors path [] with
  | Done (r, reports) => (r, reports)
  | Threw _ => (JUndefined, [])
  end.

Definition coerced inputValue type path : value :=
  fst (collected inputValue type path).

Definition reported inputValue type path : list ErrorReport :=
  snd (collected inputValue type path).
End Collected.

(** ** The reports of each kind *)

Section Reports.
Context {ext : Collaborators}.

Definition nonNullReport (type : GraphQLInputType) (path : option Path)
           (v : value) : ErrorReport :=
  mkReport (pathToArray path) v
    (newGraphQLError
       ("Expected non-nullable type " ++ quoted (inspectType type)
        ++ " not to be null.")%string).

Definition notAnObjectReport (name : string) (path : option Path)
           (v : value) : ErrorReport :=
  mkReport (pathToArray path) v
    (newGraphQLError
       ("Expected type " ++ quoted name ++ " to be an object.")%string).

Definition requiredFieldReport (field : GraphQLInputField)
           (path : option Path) (v : value) : ErrorReport :=
  mkReport (pathToArray path) v
    (newGraphQLError
       ("Field " ++ quoted (fieldName field) ++ " of required type "
        ++ quoted (inspectType (fieldType field))
        ++ " was not provided.")%string).

Definition unknownFieldReport (name : string)
           (fieldDefs : list GraphQLInputField) (path : option Path)
           (v : value) (key : string) : ErrorReport :=
  mkReport (pathToArray path) v
    (newGraphQLError
       ("Field " ++ quoted key ++ " is not defined by type "
        ++ quoted name ++ "."
        ++ didYouMean None
             (suggestionList key (map fieldName fieldDefs)))%string).

Definition scalarRejectedReport (name : string) (path : option Path)
           (v : value) : ErrorReport :=
  mkReport (pathToArray path) v
    (newGraphQLError ("Expected type " ++ quoted name ++ ".")%string).

Definition scalarWrappedReport (name : string) (path : option Path)
           (v : value) (cause : JSError) : ErrorReport :=
  mkReport (pathToArray path) v
    (mkGraphQLError
       ("Expected type " ++ quoted name ++ ". " ++ jsMessage cause)%string
       (Some cause)).

Definition enumReport (name : string) (values : list GraphQLEnumValue)
           (path : option Path) (v : value) : ErrorReport :=
  mkReport (pathToArray path) v
    (newGraphQLError
       ("Expected type " ++ quoted name ++ "."
        ++ didYouMean (Some "the enum value")
             (suggestionList (JS_String v)
                (map enumValueName values)))%string).

(** What the loop over the declared fields does with one field: the
    update of the object under construction, and the reports. *)
Definition fieldUpdate (v : value) (path : option Path)
           (field : GraphQLInputField) (acc : list (string * value))
  : list (string * value) :=
  let fieldValue := getProp v (fieldName field) in
  if isUndefined fieldValue then
    if negb (isUndefined (fieldDefaultValue field)) then
      assignProp acc (fieldName field) (fieldDefaultValue field)
    else acc
  else
    assignProp acc (fieldName field)
      (coerced fieldValue (fieldType field)
         (Some (addPath path (KeyName (fieldName field))))).

Definition fieldReports (v : value) (path : option Path)
           (field : GraphQLInputField) : list ErrorReport :=
  let fieldValue := getProp v (fieldName field) in
  if isUndefined fieldValue then
    if negb (isUndefined (fieldDefaultValue field)) then []
    else if isNonNullType (fieldType field) then
      [requiredFieldReport field path v]
    else []
  else
    reported fieldValue (fieldType field)
      (Some (addPath path (KeyName (fieldName field)))).

(** The reports of the loop over the keys of the input object. *)
Definition unknownFieldReports (name : string)
           (fieldDefs : list GraphQLInputField) (path : option Path)
           (v : value) : list ErrorReport :=
  flat_map
    (fun key =>
       match lookupField fieldDefs key with
       | Some _ => []
       | None => [unknownFieldReport name fieldDefs path v key]
       end)
    (Object_keys v).

(** *** Every coercion is the replay of its collected reports *)

(** [replays type]: whatever the callback, a coercion against [type] is
    the replay of the reports the collecting callback gets, followed by
    the result it yields there. *)
Definition replays (type : GraphQLInputType) : Prop :=
  forall v path S (cb : OnErrorCB S) s,
    coerceInputValueImpl v type cb path s
    = replay cb (reported v type path) (coerced v type path) s.

End Reports.

(** ** What each kind of type asks of a value, in the spec's words

    The right-hand sides the dispatch is compared with: each follows the
    spec's sentence for its kind of type. *)

Section Dispatch.
Context {ext : Collaborators} {S : Type}.
Variable onError : OnErrorCB S.

(** Scalar, after the call of [parseValue]: forward an error of the
    engine's own kind, wrap any other one, report a rejection when the
    parse returns [undefined], return the parse result otherwise. *)
Definition scalarOutcome (name : string) (v : value) (path : option Path)
           (parseResult : ParseResult) : M S value :=
  match parseResult with
  | Raised (ThrownGraphQLError error) =>
      onError (pathToArray path) v error ;; ret JUndefined
  | Raised (ThrownError error) =>
      onError (pathToArray path) v
        (mkGraphQLError
           ("Expected type " ++ quoted name ++ ". " ++ jsMessage error)%string
           (Some error)) ;;
      ret JUndefined
  | Returned JUndefined =>
      onError (pathToArray path) v
        (newGraphQLError ("Expected type " ++ quoted name ++ ".")%string) ;;
      ret JUndefined
  | Returned parsed => ret parsed
  end.

(** Scalar: what [parseValue] returns or throws on the value decides. *)
Definition scalarDispatch (name : string)
           (parseValue : value -> ParseResult) (v : value)
           (path : option Path) : M S value :=
  scalarOutcome name v path (parseValue v).



(** Input object, one declared field: the entries it adds to the result
    and the reports it makes.  An absent field adds its default if it
    declares one; with no default it adds nothing, and is reported when
    its type is NonNull.  A present field adds its coercion at the path
    extended by its name, whatever that coercion yields. *)
Definition fieldOutcome (v : value) (path : option Path)
           (field : GraphQLInputField)
  : list (string * value) * list ErrorReport :=
  let fieldValue := getProp v (fieldName field) in
  if isUndefined fieldValue then
    if negb (isUndefined (fieldDefaultValue field)) then
      ([(fieldName field, fieldDefaultValue field)], [])
    else if isNonNullType (fieldType field) then
      ([], [requiredFieldReport field path v])
    else ([], [])
  else
    let '(r, reports) :=
      collected fieldValue (fieldType field)
        (Some (addPath path (KeyName (fieldName field)))) in
    ([(fieldName field, r)], reports).

(** [fieldDefs[key]] is there. *)
Definition isDeclared (fieldDefs : list GraphQLInputField) (key : string)
  : bool :=
  match lookupField fieldDefs key with
  | Some _ => true
  | None => false
  end.



(** Re-coercion: the conditions on a type under which the output of a
    coercion is a fixed point of the coercion. *)

(** [nonNullResult type]: directly under a NonNull wrapper, a scalar
    does not parse a value to [null]. *)
Fixpoint nonNullResult (type : GraphQLInputType) : Prop :=
  match type with
  | GraphQLNonNull t => nonNullResult t
  | GraphQLScalarType _ parseValue =>
      forall x, isNullish x = false -> parseValue x <> Returned JNull
  | _ => True
  end.

(** [roundTrips type]: every scalar's parse function is idempotent,
    every enum value carries its own name, the field names of an input
    object are distinct, none of them is [__proto__] or the name of a
    property that objects inherit from their prototype, and every
    declared default coerces to itself with no report. *)
Fixpoint roundTrips (type : GraphQLInputType) : Prop :=
  match type with
  | GraphQLNonNull t => roundTrips t /\ nonNullResult t
  | GraphQLList t => roundTrips t
  | GraphQLInputObjectType _ fieldDefs =>
      NoDup (map fieldName fieldDefs)
      /\ ~ In "__proto__" (map fieldName fieldDefs)
      /\ (forall key, In key (map fieldName fieldDefs) ->
                      objectPrototype key = JUndefined)
      /\ (fix all (fs : list GraphQLInputField) : Prop :=
            match fs with
            | [] => True
            | f :: rest =>
                match f with
                | InputField _ t default =>
                    roundTrips t
                    /\ (default = JUndefined
                        \/ forall path,
                           collected default t path = (default, []))
                end
                /\ all rest
            end) fieldDefs
  | GraphQLScalarType _ parseValue =>
      forall x y, parseValue x = Returned y -> parseValue y = Returned y
  | GraphQLEnumType _ values =>
      forall ev, In ev values -> enumValueValue ev = JStr (enumValueName ev)
  end.

(** The condition the spec's sentence puts on a type: every scalar's
    parse function is idempotent, nothing else. *)
Fixpoint scalarsRoundTrip (type : GraphQLInputType) : Prop :=
  match type with
  | GraphQLNonNull t => scalarsRoundTrip t
  | GraphQLList t => scalarsRoundTrip t
  | GraphQLInputObjectType _ fieldDefs =>
      (fix all (fs : list GraphQLInputField) : Prop :=
         match fs with
         | [] => True
         | f :: rest =>
             match f with
             | InputField _ t _ => scalarsRoundTrip t
             end
             /\ all rest
         end) fieldDefs
  | GraphQLScalarType _ parseValue =>
      forall x y, parseValue x = Returned y -> parseValue y = Returned y
  | GraphQLEnumType _ _ => True
  end.
End Dispatch.

(** ** Validity, location and nesting

    Notions the further properties of the engine are stated with. *)

(** [conforms type v]: the value has the shape the type asks for, read
    off the branches of the engine that make no report. *)
Fixpoint conforms {ext : Collaborators} (type : GraphQLInputType)
         (v : value) {struct type} : bool :=
  match type with
  | GraphQLNonNull t => negb (isNullish v) && conforms t v
  | GraphQLList t =>
      isNullish v
      || (if isCollection v
          then forallb (conforms t) (collectionItems v)
          else conforms t v)
  | GraphQLInputObjectType _ fieldDefs =>
      isNullish v
      || (isObjectLike v
          && forallb
               (fun field =>
                  let fieldValue := getProp v (fieldName field) in
                  if isUndefined fieldValue then
                    negb (isUndefined (fieldDefaultValue field))
                    || negb (isNonNullType (fieldType field))
                  else conforms (fieldType field) fieldValue)
               fieldDefs
          && forallb (isDeclared fieldDefs) (Object_keys v))
  | GraphQLScalarType _ parseValue =>
      isNullish v
      || match parseValue v with
         | Returned parseResult => negb (isUndefined parseResult)
         | Raised _ => false
         end
  | GraphQLEnumType _ values =>
      isNullish v
      || match v with
         | JStr k =>
             match getValue values k with
             | Some _ => true
             | None => false
             end
         | _ => false
         end
  end.

(** The part of a value a sequence of keys leads to: an index selects an
    element of an array, a name what a read under it finds on an object
    ([getProp]: its own property, or what it inherits). *)
Fixpoint navigate {ext : Collaborators} (v : value) (keys : list PathKey)
  : option value :=
  match keys with
  | [] => Some v
  | KeyIndex i :: rest =>
      match v with
      | JArr items =>
          match nth_error items i with
          | Some x => navigate x rest
          | None => None
          end
      | _ => None
      end
  | KeyName k :: rest =>
      match v with
      | JObj _ => navigate (getProp v k) rest
      | _ => None
      end
  end.

(** A report with its path put under a prefix. *)
Definition relocate (prefix : list PathKey) (r : ErrorReport) : ErrorReport :=
  mkReport (prefix ++ reportPath r) (invalidValue r) (reportError r).



(** [relocates type]: the path argument only prefixes the paths of the
    reports of a coercion against [type]. *)
Definition relocates {ext : Collaborators} (type : GraphQLInputType) : Prop :=
  forall v path,
    coerced v type path = coerced v type None
    /\ reported v type path
       = map (relocate (pathToArray path)) (reported v type None).


(** ** A concrete setting for examples

    Stand-ins for the collaborators, and a few types, on which the
    engine runs. *)

Module Sample.

Fixpoint typeToString (type : GraphQLInputType) : string :=
  match type with
  | GraphQLNonNull t => (typeToString t ++ "!")%string
  | GraphQLList t => ("[" ++ typeToString t ++ "]")%string
  | GraphQLInputObjectType name _ => name
  | GraphQLScalarType name _ => name
  | GraphQLEnumType name _ => name
  end.

Definition printKey (key : PathKey) : string :=
  match key with
  | KeyName s => ("." ++ s)%string
  | KeyIndex i => ("[" ++ NilZero.string_of_uint (Nat.to_uint i) ++ "]")%string
  end.

Definition firstChar (s : string) : option ascii :=
  match s with
  | EmptyString => None
  | String c _ => Some c
  end.

(** Candidates that start with the letter the input starts with. *)
Definition sameInitial (input option : string) : bool :=
  match firstChar input, firstChar option with
  | Some a, Some b => Ascii.eqb a b
  | _, _ => false
  end.

Definition renderSuggestions (subMessage : option string)
           (suggestions : list string) : string :=
  match suggestions with
  | [] => ""
  | _ =>
      (" Did you mean "
       ++ match subMessage with
          | Some m => m ++ " "
          | None => ""
          end
       ++ String.concat ", " (map quoted suggestions) ++ "?")%string
  end.

(** The methods every object inherits from [Object.prototype]. *)
Definition inheritedMethods : list string :=
  ["hasOwnProperty"; "isPrototypeOf"; "propertyIsEnumerable";
   "toLocaleString"; "toString"; "valueOf"; "__defineGetter__";
   "__defineSetter__"; "__lookupGetter__"; "__lookupSetter__"].

(** [Object.prototype] as it comes: the function [Object] under
    [constructor], a method under each of its names, the prototype
    itself (here an object with no enumerable property) under
    [__proto__], and [undefined] elsewhere. *)
Definition standardObjectPrototype (key : string) : value :=
  if String.eqb key "constructor" then JFunction "Object"
  else if existsb (String.eqb key) inheritedMethods then JFunction key
  else if String.eqb key "__proto__" then JObj []
  else JUndefined.

Definition collaborators : Collaborators := {|
  inspect := JS_String;
  inspectType := typeToString;
  suggestionList := fun input options => filter (sameInitial input) options;
  didYouMean := renderSuggestions;
  printPathArray := fun path => String.concat "" (map printKey path);
  objectPrototype := standardObjectPrototype;
  didYouMean_nil := fun _ => eq_refl
|}.

(** A scalar that takes the integers and rejects the rest by throwing. *)
Definition Int : GraphQLInputType :=
  GraphQLScalarType "Int"
    (fun v =>
       match v with
       | JNum n => Returned (JNum n)
       | _ =>
           Raised
             (ThrownError
                (mkJSError "Int cannot represent non-integer value"))
       end).

(** A scalar whose [parseValue] throws on every input. *)
Definition Never : GraphQLInputType :=
  GraphQLScalarType "Never"
    (fun _ => Raised (ThrownError (mkJSError "no value is accepted"))).

(** An enum whose values carry numbers. *)
Definition Color : GraphQLInputType :=
  GraphQLEnumType "Color"
    [mkEnumValue "RED" (JNum 0); mkEnumValue "BLUE" (JNum 1)].

(** An enum whose values carry their names. *)
Definition Tag : GraphQLInputType :=
  GraphQLEnumType "Tag"
    [mkEnumValue "RED" (JStr "RED"); mkEnumValue "BLUE" (JStr "BLUE")].

Definition itemFields : list GraphQLInputField :=
  [InputField "id" (GraphQLNonNull Int) JUndefined;
   InputField "tag" Tag (JStr "RED")].

Definition Item : GraphQLInputType :=
  GraphQLInputObjectType "Item" itemFields.

(** A scalar that parses every value to [null]. *)
Definition Nothing : GraphQLInputType :=
  GraphQLScalarType "Nothing" (fun _ => Returned JNull).

(** An input object whose one field has a default no coercion accepts. *)
Definition Odd : GraphQLInputType :=
  GraphQLInputObjectType "Odd" [InputField "n" Never (JStr "as it is")].

Definition Person : GraphQLInputType :=
  GraphQLInputObjectType "Person" [InputField "name" Tag JUndefined].


(** An input object with an integer field named as an inherited
    property. *)
Definition Made : GraphQLInputType :=
  GraphQLInputObjectType "Made" [InputField "constructor" Int JUndefined].

(** A call of [parseValue] that counts: the state is the number of calls
    made so far. *)
Definition countingCall : Invoke nat :=
  fun parseValue inputValue calls =>
    Done (parseValue inputValue, Datatypes.S calls).

(** A callback that lets every report pass. *)
Definition ignoreErrors : OnErrorCB nat := fun _ _ _ => ret tt.

End Sample.

(** ** Induction on input types, through the field lists *)

Section TypeInduction.
Variable P : GraphQLInputType -> Prop.
Hypothesis HNonNull : forall t, P t -> P (GraphQLNonNull t).
Hypothesis HList : forall t, P t -> P (GraphQLList t).
Hypothesis HObject : forall name fields,
    Forall (fun f => P (fieldType f)) fields ->
    P (GraphQLInputObjectType name fields).
Hypothesis HScalar : forall name parseValue,
    P (GraphQLScalarType name parseValue).
Hypothesis HEnum : forall name values, P (GraphQLEnumType name values).

Fixpoint GraphQLInputType_induction (t : GraphQLInputType) : P t :=
  match t with
  | GraphQLNonNull t' => HNonNull t' (GraphQLInputType_induction t')
  | GraphQLList t' => HList t' (GraphQLInputType_induction t')
  | GraphQLInputObjectType name fields =>
      HObject name fields
        ((fix all (fs : list GraphQLInputField)
            : Forall (fun f => P (fieldType f)) fs :=
            match fs with
            | [] => Forall_nil _
            | f :: rest =>
                Forall_cons f
                  (match f return P (fieldType f) with
                   | InputField _ ty _ => GraphQLInputType_induction ty
                   end)
                  (all rest)
            end) fields)
  | GraphQLScalarType name parseValue => HScalar name parseValue
  | GraphQLEnumType name values => HEnum name values
  end.
End TypeInduction.

(** ** Replay lemmas *)

Lemma replay_app {S A : Type} (onError : OnErrorCB S) e1 e2 (r : A) s :
  replay onError (e1 ++ e2) r s
  = (replay onError e1 tt ;; replay onError e2 r) s.
Proof.
  revert s. induction e1 as [|e rest IH]; intros s; simpl.
  - reflexivity.
  - unfold bind in *.
    destruct (onError _ _ _ s) as [t|[[] s']]; [reflexivity|].
    apply IH.
Qed.

Lemma replay_collect {A : Type} reports (r : A) s :
  replay collectErrors reports r s = Done (r, s ++ reports).
Proof.
  revert s. induction reports as [|e rest IH]; intros s; simpl.
  - unfold ret. now rewrite app_nil_r.
  - unfold bind, collectErrors. rewrite IH. destruct e; simpl.
    now rewrite <- app_assoc.
Qed.

Section ReplayLoops.
Context {S : Type}.
Variable onError : OnErrorCB S.

Lemma replay_result {A : Type} reports (r : A) s :
  replay onError reports r s
  = match replay onError reports tt s with
    | Threw t => Threw t
    | Done (_, s') => Done (r, s')
    end.
Proof.
  revert s. induction reports as [|e rest IH]; intros s; simpl.
  - reflexivity.
  - unfold bind. destruct (onError _ _ _ s) as [t|[[] s']]; [reflexivity|].
    apply IH.
Qed.

Lemma onError_replay path v e s :
  onError path v e s = replay onError [mkReport path v e] tt s.
Proof.
  simpl. unfold bind, ret.
  destruct (onError path v e s) as [t|[[] s']]; reflexivity.
Qed.

Lemma bind_replay {A B : Type} (m : M S A) (k : A -> M S B) r1 e1 r2 e2 :
  (forall s, m s = replay onError e1 r1 s) ->
  (forall s, k r1 s = replay onError e2 r2 s) ->
  forall s, bind m k s = replay onError (e1 ++ e2) r2 s.
Proof.
  intros Hm Hk s. rewrite replay_app. unfold bind.
  rewrite Hm, replay_result.
  destruct (replay onError e1 tt s) as [t|[[] s']]; [reflexivity|].
  apply Hk.
Qed.

Lemma forEach_replay (body : value -> nat -> M S value)
      (R : value -> nat -> value) (E : value -> nat -> list ErrorReport) :
  (forall x i s, body x i s = replay onError (E x i) (R x i) s) ->
  forall items index acc s,
    forEach body items index acc s
    = replay onError (List.concat (indexedMap E items index))
        (acc ++ indexedMap R items index) s.
Proof.
  intros Hbody items. induction items as [|x rest IH]; intros index acc s.
  - simpl. now rewrite app_nil_r.
  - simpl.
    replace (acc ++ R x index :: indexedMap R rest (Datatypes.S index))
      with ((acc ++ [R x index]) ++ indexedMap R rest (Datatypes.S index))
      by now rewrite <- app_assoc.
    apply bind_replay with (r1 := R x index); [apply Hbody|].
    intros s'. apply IH.
Qed.

Lemma forOf_replay {A B : Type} (body : A -> B -> M S B)
      (R : A -> B -> B) (E : A -> list ErrorReport) xs :
  (forall x, In x xs ->
     forall acc s, body x acc s = replay onError (E x) (R x acc) s) ->
  forall acc s,
    forOf body xs acc s
    = replay onError (flat_map E xs) (fold_left (fun a x => R x a) xs acc) s.
Proof.
  induction xs as [|x rest IH]; intros Hbody acc s.
  - reflexivity.
  - simpl.
    apply bind_replay with (r1 := R x acc).
    + intros s'. apply Hbody. now left.
    + intros s'. apply IH. intros y Hy. apply Hbody. now right.
Qed.
End ReplayLoops.

(** ** One step of the dispatch, and the replay theorem *)

Section Steps.
Context {ext : Collaborators}.

Lemma replays_collected v type path r e :
  (forall S (cb : OnErrorCB S) s,
      coerceInputValueImpl v type cb path s = replay cb e r s) ->
  collected v type path = (r, e).
Proof.
  intros H. unfold collected. rewrite H, replay_collect. reflexivity.
Qed.

Lemma replays_intro type :
  (forall v path, exists r e, forall S (cb : OnErrorCB S) s,
        coerceInputValueImpl v type cb path s = replay cb e r s) ->
  replays type.
Proof.
  intros H v path S cb s. destruct (H v path) as (r & e & Hre).
  unfold reported, coerced. rewrite (replays_collected _ _ _ _ _ Hre).
  apply Hre.
Qed.

(** One step of the dispatch, for each kind of type, given that the
    coercions it calls replay their reports. *)

Lemma step_NonNull t v path S (cb : OnErrorCB S) s :
  coerceInputValueImpl v (GraphQLNonNull t) cb path s
  = if isNullish v
    then replay cb [nonNullReport (GraphQLNonNull t) path v] JUndefined s
    else coerceInputValueImpl v t cb path s.
Proof. simpl. destruct (isNullish v); reflexivity. Qed.

Lemma step_nullish type v path S (cb : OnErrorCB S) s :
  isNonNullType type = false -> isNullish v = true ->
  coerceInputValueImpl v type cb path s = Done (JNull, s).
Proof.
  intros Ht Hv. destruct type; try discriminate; simpl; now rewrite Hv.
Qed.

Lemma step_List_items t items path S (cb : OnErrorCB S) s :
  replays t ->
  coerceInputValueImpl (JArr items) (GraphQLList t) cb path s
  = replay cb
      (List.concat
         (indexedMap
            (fun x i => reported x t (Some (addPath path (KeyIndex i))))
            items 0))
      (JArr (indexedMap
               (fun x i => coerced x t (Some (addPath path (KeyIndex i))))
               items 0)) s.
Proof.
  intros IH. simpl coerceInputValueImpl.
  rewrite <- (app_nil_r (List.concat _)).
  eapply bind_replay.
  - intros s'. apply forEach_replay. intros x i s''. apply IH.
  - intros s'. reflexivity.
Qed.

Lemma step_List_single t v path S (cb : OnErrorCB S) s :
  isNullish v = false -> isCollection v = false ->
  coerceInputValueImpl v (GraphQLList t) cb path s
  = (r <- coerceInputValueImpl v t cb path ;; ret (JArr [r])) s.
Proof. intros Hv Hc. simpl. now rewrite Hv, Hc. Qed.

Lemma step_Object_notObject name fields v path S (cb : OnErrorCB S) s :
  isNullish v = false -> isObjectLike v = false ->
  coerceInputValueImpl v (GraphQLInputObjectType name fields) cb path s
  = replay cb [notAnObjectReport name path v] JUndefined s.
Proof. intros Hv Ho. simpl. now rewrite Hv, Ho. Qed.

Lemma step_Object name fields v path S (cb : OnErrorCB S) s :
  (forall f, In f fields -> replays (fieldType f)) ->
  isObjectLike v = true ->
  coerceInputValueImpl v (GraphQLInputObjectType name fields) cb path s
  = replay cb
      (flat_map (fieldReports v path) fields
       ++ unknownFieldReports name fields path v)
      (JObj (fold_left (fun a f => fieldUpdate v path f a) fields [])) s.
Proof.
  intros IH Ho.
  assert (Hv : isNullish v = false) by (destruct v; easy).
  simpl coerceInputValueImpl. rewrite Hv, Ho.
  cbv beta iota delta [negb].
  eapply bind_replay.
  - intros s'.
    apply (forOf_replay cb _ (fieldUpdate v path) (fieldReports v path)).
    intros f Hf acc s''. specialize (IH f Hf).
    unfold fieldUpdate, fieldReports.
    destruct (isUndefined (getProp v (fieldName f))) eqn:Hu.
    + destruct (isUndefined (fieldDefaultValue f)) eqn:Hd; simpl.
      * destruct (isNonNullType (fieldType f)); reflexivity.
      * reflexivity.
    + rewrite <- (app_nil_r (reported _ _ _)).
      eapply bind_replay.
      * intros s3. apply IH.
      * intros s3. reflexivity.
  - intros s'. rewrite <- (app_nil_r (unknownFieldReports _ _ _ _)).
    eapply bind_replay.
    + intros s''. unfold unknownFieldReports.
      apply (forOf_replay cb _ (fun _ u => u)).
      intros key _ [] s3.
      destruct (lookupField fields key); [reflexivity|].
      apply onError_replay.
    + intros s''. reflexivity.
Qed.

Lemma step_Scalar name parseValue v path S (cb : OnErrorCB S) s :
  isNullish v = false ->
  coerceInputValueImpl v (GraphQLScalarType name parseValue) cb path s
  = match parseValue v with
    | Raised (ThrownGraphQLError error) =>
        replay cb [mkReport (pathToArray path) v error] JUndefined s
    | Raised (ThrownError error) =>
        replay cb [scalarWrappedReport name path v error] JUndefined s
    | Returned parseResult =>
        if isUndefined parseResult
        then replay cb [scalarRejectedReport name path v] parseResult s
        else Done (parseResult, s)
    end.
Proof.
  intros Hv. cbn [coerceInputValueImplWith]. rewrite Hv.
  unfold callParseValue. unfold bind at 1. unfold ret at 1.
  destruct (parseValue v) as [r|[e|e]]; try reflexivity.
  destruct (isUndefined r); reflexivity.
Qed.

Lemma step_Enum name values v path S (cb : OnErrorCB S) s :
  isNullish v = false ->
  coerceInputValueImpl v (GraphQLEnumType name values) cb path s
  = match (match v with JStr k => getValue values k | _ => None end) with
    | Some enumValue => Done (enumValueValue enumValue, s)
    | None => replay cb [enumReport name values path v] JUndefined s
    end.
Proof.
  intros Hv. simpl. rewrite Hv.
  destruct (match v with JStr k => getValue values k | _ => None end);
    reflexivity.
Qed.

Lemma Done_replay {S A : Type} (cb : OnErrorCB S) (r : A) s :
  Done (r, s) = replay cb [] r s.
Proof. reflexivity. Qed.

Theorem coerce_replays type : replays type.
Proof.
  induction type as [t IH|t IH|name fields IH|name parseValue|name values]
    using GraphQLInputType_induction; apply replays_intro; intros v path.
  - (* NonNull *)
    destruct (isNullish v) eqn:Hv.
    + exists JUndefined, [nonNullReport (GraphQLNonNull t) path v].
      intros S cb s. now rewrite step_NonNull, Hv.
    + eexists _, _. intros S cb s. rewrite step_NonNull, Hv. apply IH.
  - (* List *)
    destruct (isNullish v) eqn:Hv.
    { exists JNull, []. intros S cb s. now apply step_nullish. }
    destruct (isCollection v) eqn:Hc.
    + destruct v; try discriminate.
      eexists _, _. intros S cb s. now apply step_List_items.
    + eexists (JArr [_]), (_ ++ []). intros S cb s.
      rewrite step_List_single by assumption.
      eapply bind_replay; [intros s'; apply IH | reflexivity].
  - (* InputObject *)
    destruct (isNullish v) eqn:Hv.
    { exists JNull, []. intros S cb s. now apply step_nullish. }
    rewrite Forall_forall in IH.
    destruct (isObjectLike v) eqn:Ho.
    + eexists _, _. intros S cb s. now apply step_Object.
    + eexists _, _. intros S cb s. now apply step_Object_notObject.
  - (* Scalar *)
    destruct (isNullish v) eqn:Hv.
    { exists JNull, []. intros S cb s. now apply step_nullish. }
    destruct (parseValue v) as [r|[e|e]] eqn:Hp;
      [destruct (isUndefined r) eqn:Hr|..];
      eexists _, _; intros S cb s;
      rewrite step_Scalar, Hp by assumption; rewrite ?Hr;
      try reflexivity; apply Done_replay.
  - (* Enum *)
    destruct (isNullish v) eqn:Hv.
    { exists JNull, []. intros S cb s. now apply step_nullish. }
    destruct (match v with JStr k => getValue values k | _ => None end)
      as [ev|] eqn:Hg;
      eexists _, _; intros S cb s;
      rewrite step_Enum, Hg by assumption;
      try reflexivity; apply Done_replay.
Qed.

Lemma coerce_collected v type path s :
  coerceInputValueImpl v type collectErrors path s
  = Done (coerced v type path, s ++ reported v type path).
Proof. rewrite coerce_replays. apply replay_collect. Qed.

(** From an equation for every callback to the collected pair, and
    back. *)
Lemma collected_iff v type path r e :
  collected v type path = (r, e) <->
  (forall S (cb : OnErrorCB S) s,
      coerceInputValueImpl v type cb path s = replay cb e r s).
Proof.
  split; [|apply replays_collected].
  intros H S cb s. rewrite coerce_replays. unfold reported, coerced.
  now rewrite H.
Qed.

End Steps.

(** ** Properties of the engine *)

Section Properties.
Context {ext : Collaborators}.

Lemma isObjectLike_not_nullish v : isObjectLike v = true -> isNullish v = false.
Proof. destruct v; easy. Qed.

Lemma isCollection_not_nullish v : isCollection v = true -> isNullish v = false.
Proof. destruct v; easy. Qed.


Lemma getValue_Some values k ev :
  getValue values k = Some ev -> In ev values /\ enumValueName ev = k.
Proof.
  induction values as [|e rest IH]; simpl; [discriminate|].
  destruct (String.eqb_spec (enumValueName e) k) as [Heq|Hne].
  - intros [= <-]. auto.
  - intros H. destruct (IH H). auto.
Qed.


(** C2. Non-null handling: against [NonNull(T)], [null] and [undefined]
    make one call of [onError], with the non-null message, the current
    path and the offending value, and the result is [undefined]; any
    other value is coerced against [T] at the same path. *)
Theorem nonNull_handling (t : GraphQLInputType) (v : value)
        (path : option Path) S (onError : OnErrorCB S) (s : S) :
  coerceInputValueImpl v (GraphQLNonNull t) onError path s
  = (if isNullish v
     then
       (onError (pathToArray path) v
          (newGraphQLError
             ("Expected non-nullable type "
              ++ quoted (inspectType (GraphQLNonNull t))
              ++ " not to be null.")%string) ;;
        ret JUndefined) s
     else coerceInputValueImpl v t onError path s)
  /\ collected v (GraphQLNonNull t) path
     = (if isNullish v
        then (JUndefined, [nonNullReport (GraphQLNonNull t) path v])
        else collected v t path).
Proof.
  split.
  - simpl. destruct (isNullish v); reflexivity.
  - unfold collected. simpl. destruct (isNullish v); reflexivity.
Qed.

(** C7. Null-passthrough: against a type that is not NonNull, [null] and
    [undefined] both yield the value [null], and the callback is not
    called: the caller's state is as it was, whatever the callback. *)
Theorem null_passthrough (type : GraphQLInputType) (v : value)
        (path : option Path) S (onError : OnErrorCB S) (s : S) :
  isNonNullType type = false ->
  isNullish v = true ->
  coerceInputValueImpl v type onError path s = Done (JNull, s)
  /\ collected v type path = (JNull, []).
Proof.
  intros Ht Hv. split.
  - now apply step_nullish.
  - unfold collected. now rewrite step_nullish.
Qed.

(** C4 (amended). Scalar handling.  For [null] and [undefined] the
    result is [null] and [parseValue] is not called.  For any other
    value [parseValue] is called once, on the value, and what the call
    yields decides: an error of the engine's own kind reaches [onError]
    as it is, any other thrown value whose message the engine can read
    reaches it wrapped (message prefixed, cause kept), a parse result
    [undefined] is reported, every other parse result is returned with
    no report; a parse result [null] is such a result. *)
Theorem scalar_handling (name : string) (parseValue : value -> ParseResult)
        (v : value) (path : option Path) S (onError : OnErrorCB S) (s : S) :
  (forall invoke : Invoke S,
      coerceInputValueImplWith invoke v (GraphQLScalarType name parseValue)
        onError path s
      = if isNullish v then Done (JNull, s)
        else (parseResult <- invoke parseValue v ;;
              scalarOutcome onError name v path parseResult) s)
  /\ (isNullish v = false ->
      coerceInputValueImpl v (GraphQLScalarType name parseValue)
        onError path s
      = scalarDispatch onError name parseValue v path s)
  /\ (isNullish v = false ->
      parseValue v = Returned JNull ->
      coerceInputValueImpl v (GraphQLScalarType name parseValue)
        onError path s = Done (JNull, s)).
Proof.
  assert (Hwith : forall invoke : Invoke S,
             coerceInputValueImplWith invoke v
               (GraphQLScalarType name parseValue) onError path s
             = if isNullish v then Done (JNull, s)
               else (parseResult <- invoke parseValue v ;;
                     scalarOutcome onError name v path parseResult) s).
  { intros invoke. cbn [coerceInputValueImplWith].
    destruct (isNullish v); [reflexivity|].
    unfold scalarOutcome, bind.
    destruct (invoke parseValue v s) as [t|[[r|[e|e]] s']]; try reflexivity.
    destruct r; reflexivity. }
  split; [exact Hwith|]. split.
  - intros Hv. rewrite Hwith, Hv. reflexivity.
  - intros Hv Hp. rewrite Hwith, Hv.
    unfold callParseValue, bind, ret. now rewrite Hp.
Qed.



(** *** Input objects *)

Lemma fieldReports_outcome v path f :
  fieldReports v path f = snd (fieldOutcome v path f).
Proof.
  unfold fieldReports, fieldOutcome, reported.
  destruct (isUndefined (getProp v (fieldName f))).
  - destruct (isUndefined (fieldDefaultValue f)); simpl; [|reflexivity].
    destruct (isNonNullType (fieldType f)); reflexivity.
  - destruct (collected _ _ _). reflexivity.
Qed.

Lemma fieldUpdate_outcome v path f acc :
  fieldUpdate v path f acc
  = fold_left (fun a kx => assignProp a (fst kx) (snd kx))
      (fst (fieldOutcome v path f)) acc.
Proof.
  unfold fieldUpdate, fieldOutcome, coerced.
  destruct (isUndefined (getProp v (fieldName f))).
  - destruct (isUndefined (fieldDefaultValue f)); simpl; [|reflexivity].
    destruct (isNonNullType (fieldType f)); reflexivity.
  - destruct (collected _ _ _). reflexivity.
Qed.

Lemma fieldOutcome_keys v path f kx :
  In kx (fst (fieldOutcome v path f)) -> fst kx = fieldName f.
Proof.
  unfold fieldOutcome.
  destruct (isUndefined (getProp v (fieldName f))).
  - destruct (isUndefined (fieldDefaultValue f)); simpl.
    + destruct (isNonNullType (fieldType f)); intros [].
    + intros [<-|[]]. reflexivity.
  - destruct (collected _ _ _). intros [<-|[]]. reflexivity.
Qed.

Lemma fieldOutcome_at_most_one v path f :
  fst (fieldOutcome v path f) = []
  \/ exists x, fst (fieldOutcome v path f) = [(fieldName f, x)].
Proof.
  unfold fieldOutcome.
  destruct (isUndefined (getProp v (fieldName f))).
  - destruct (isUndefined (fieldDefaultValue f)); simpl.
    + destruct (isNonNullType (fieldType f)); auto.
    + right. eexists. reflexivity.
  - destruct (collected _ _ _). right. eexists. reflexivity.
Qed.

Lemma setProp_fresh props key x :
  ~ In key (map fst props) -> setProp props key x = props ++ [(key, x)].
Proof.
  induction props as [|[k y] rest IH]; simpl; intros Hfresh; [reflexivity|].
  destruct (String.eqb_spec k key) as [->|Hne].
  - exfalso. auto.
  - rewrite IH; auto.
Qed.

Lemma setProp_keys props key x k :
  In k (map fst (setProp props key x)) -> In k (map fst props) \/ k = key.
Proof.
  induction props as [|[k0 y] rest IH]; simpl.
  - intros [<-|[]]. auto.
  - destruct (String.eqb_spec k0 key) as [->|Hne]; simpl.
    + intros [<-|H]; auto.
    + intros [<-|H]; auto. destruct (IH H); auto.
Qed.

Lemma assignProp_fresh props key x :
  key <> "__proto__" ->
  ~ In key (map fst props) -> assignProp props key x = props ++ [(key, x)].
Proof.
  intros Hkey Hfresh. unfold assignProp.
  destruct (String.eqb_spec key "__proto__"); [contradiction|].
  now apply setProp_fresh.
Qed.

Lemma assignProp_keys props key x k :
  In k (map fst (assignProp props key x)) -> In k (map fst props) \/ k = key.
Proof.
  unfold assignProp. destruct (String.eqb key "__proto__"); [auto|].
  apply setProp_keys.
Qed.

Lemma fieldUpdate_keys v path f acc k :
  In k (map fst (fieldUpdate v path f acc)) ->
  In k (map fst acc) \/ k = fieldName f.
Proof.
  unfold fieldUpdate.
  destruct (isUndefined (getProp v (fieldName f))).
  - destruct (isUndefined (fieldDefaultValue f)); simpl; auto.
    apply assignProp_keys.
  - apply assignProp_keys.
Qed.


(** With distinct field names, none of them [__proto__], every write
    adds a key: the object under construction is the list of the entries
    of the fields, in order. *)
Lemma fold_fieldUpdate_NoDup v path fields acc :
  NoDup (map fieldName fields) ->
  ~ In "__proto__" (map fieldName fields) ->
  (forall f, In f fields -> ~ In (fieldName f) (map fst acc)) ->
  fold_left (fun a f => fieldUpdate v path f a) fields acc
  = acc ++ flat_map (fun f => fst (fieldOutcome v path f)) fields.
Proof.
  revert acc.
  induction fields as [|f rest IH]; simpl; intros acc Hnd Hproto Hfresh.
  - now rewrite app_nil_r.
  - inversion Hnd as [|? ? Hnotin Hnd']; subst.
    rewrite IH; auto.
    + rewrite fieldUpdate_outcome.
      destruct (fieldOutcome_at_most_one v path f) as [->|[x ->]]; simpl.
      * reflexivity.
      * rewrite assignProp_fresh by auto. now rewrite <- app_assoc.
    + intros g Hg Hin. destruct (fieldUpdate_keys _ _ _ _ _ Hin) as [H|H].
      * apply (Hfresh g); auto.
      * apply Hnotin. rewrite <- H. now apply in_map.
Qed.

Lemma lookupField_None fields key :
  lookupField fields key = None <-> ~ In key (map fieldName fields).
Proof.
  induction fields as [|f rest IH]; simpl.
  - split; auto.
  - destruct (String.eqb_spec (fieldName f) key) as [Heq|Hne].
    + split; [discriminate|]. intros H. exfalso. auto.
    + rewrite IH. split; [intros H [H'|H']; auto|auto].
Qed.

Lemma isDeclared_In fields key :
  isDeclared fields key = true <-> In key (map fieldName fields).
Proof.
  unfold isDeclared. pose proof (lookupField_None fields key) as H.
  destruct (lookupField fields key).
  - split; [intros _|reflexivity].
    destruct (in_dec string_dec key (map fieldName fields)) as [Hin|Hout];
      [assumption|]. apply H in Hout. discriminate.
  - split; [discriminate|]. intros Hin. exfalso. now apply H.
Qed.

Lemma unknownFieldReports_filter name fields path v :
  unknownFieldReports name fields path v
  = map (unknownFieldReport name fields path v)
      (filter (fun key => negb (isDeclared fields key)) (Object_keys v)).
Proof.
  unfold unknownFieldReports, isDeclared.
  induction (Object_keys v) as [|k rest IH]; simpl; [reflexivity|].
  destruct (lookupField fields k); simpl; now rewrite IH.
Qed.

Lemma flat_map_ext_eq {A B : Type} (f g : A -> list B) xs :
  (forall x, f x = g x) -> flat_map f xs = flat_map g xs.
Proof.
  intros H. induction xs as [|x rest IH]; simpl; [|rewrite H, IH];
    reflexivity.
Qed.

Lemma lookupProp_fresh_app props rest key :
  ~ In key (map fst props) ->
  lookupProp (props ++ rest) key = lookupProp rest key.
Proof.
  induction props as [|[k x] more IH]; simpl; intros Hfresh; [reflexivity|].
  destruct (String.eqb_spec k key) as [->|Hne].
  - exfalso. auto.
  - apply IH. auto.
Qed.

Lemma entries_keys v path fields key :
  In key (map fst (flat_map (fun f => fst (fieldOutcome v path f)) fields)) ->
  In key (map fieldName fields).
Proof.
  induction fields as [|f rest IH]; simpl; [auto|].
  rewrite map_app, in_app_iff. intros [H|H]; [left|right; auto].
  apply in_map_iff in H. destruct H as (kx & <- & Hin).
  symmetry. now apply fieldOutcome_keys with (v := v) (path := path).
Qed.

(** The record case, in the terms of [fieldOutcome]; the result is the
    list of the entries when the field names are distinct. *)
Lemma object_replays name fields v path S (cb : OnErrorCB S) s :
  isObjectLike v = true ->
  coerceInputValueImpl v (GraphQLInputObjectType name fields) cb path s
  = replay cb
      (flat_map (fun f => snd (fieldOutcome v path f)) fields
       ++ map (unknownFieldReport name fields path v)
            (filter (fun key => negb (isDeclared fields key))
               (Object_keys v)))
      (JObj (fold_left (fun a f => fieldUpdate v path f a) fields [])) s.
Proof.
  intros Ho. rewrite step_Object; auto using coerce_replays.
  rewrite unknownFieldReports_filter.
  now rewrite (flat_map_ext_eq _ _ fields (fieldReports_outcome v path)).
Qed.







(** *** The collected pair, kind by kind *)

Lemma collected_NonNull t v path :
  collected v (GraphQLNonNull t) path
  = if isNullish v
    then (JUndefined, [nonNullReport (GraphQLNonNull t) path v])
    else collected v t path.
Proof. unfold collected. simpl. destruct (isNullish v); reflexivity. Qed.

Lemma collected_nullish type v path :
  isNonNullType type = false -> isNullish v = true ->
  collected v type path = (JNull, []).
Proof. intros Ht Hv. unfold collected. now rewrite step_nullish. Qed.

Lemma collected_List_items t items path :
  collected (JArr items) (GraphQLList t) path
  = (JArr (indexedMap
             (fun x i => coerced x t (Some (addPath path (KeyIndex i))))
             items 0),
     List.concat
       (indexedMap
          (fun x i => reported x t (Some (addPath path (KeyIndex i))))
          items 0)).
Proof.
  apply collected_iff. intros S cb s.
  apply step_List_items, coerce_replays.
Qed.

Lemma collected_List_single t v path :
  isNullish v = false -> isCollection v = false ->
  collected v (GraphQLList t) path
  = (JArr [coerced v t path], reported v t path).
Proof.
  intros Hv Hc. apply collected_iff. intros S cb s.
  rewrite step_List_single by assumption.
  rewrite <- (app_nil_r (reported v t path)).
  eapply bind_replay; [intros s'; apply coerce_replays|reflexivity].
Qed.

Lemma collected_Object name fields v path :
  isObjectLike v = true ->
  collected v (GraphQLInputObjectType name fields) path
  = (JObj (fold_left (fun a f => fieldUpdate v path f a) fields []),
     flat_map (fun f => snd (fieldOutcome v path f)) fields
     ++ map (unknownFieldReport name fields path v)
          (filter (fun key => negb (isDeclared fields key))
             (Object_keys v))).
Proof.
  intros Ho. apply collected_iff. intros S cb s. now apply object_replays.
Qed.

Lemma collected_Object_notObject name fields v path :
  isNullish v = false -> isObjectLike v = false ->
  collected v (GraphQLInputObjectType name fields) path
  = (JUndefined, [notAnObjectReport name path v]).
Proof.
  intros Hv Ho. apply collected_iff. intros S cb s.
  now apply step_Object_notObject.
Qed.

Lemma collected_Scalar name parseValue v path :
  isNullish v = false ->
  collected v (GraphQLScalarType name parseValue) path
  = match parseValue v with
    | Raised (ThrownGraphQLError error) =>
        (JUndefined, [mkReport (pathToArray path) v error])
    | Raised (ThrownError error) =>
        (JUndefined, [scalarWrappedReport name path v error])
    | Returned parseResult =>
        (parseResult,
         if isUndefined parseResult
         then [scalarRejectedReport name path v]
         else [])
    end.
Proof.
  intros Hv. unfold collected. rewrite step_Scalar by assumption.
  destruct (parseValue v) as [r|[e|e]]; try reflexivity.
  destruct (isUndefined r); reflexivity.
Qed.

Lemma collected_Enum name values v path :
  isNullish v = false ->
  collected v (GraphQLEnumType name values) path
  = match (match v with JStr k => getValue values k | _ => None end) with
    | Some enumValue => (enumValueValue enumValue, [])
    | None => (JUndefined, [enumReport name values path v])
    end.
Proof.
  intros Hv. unfold collected. rewrite step_Enum by assumption.
  destruct (match v with JStr k => getValue values k | _ => None end);
    reflexivity.
Qed.

(** *** Re-coercion *)

Lemma roundTrips_fields name fields :
  roundTrips (GraphQLInputObjectType name fields) ->
  NoDup (map fieldName fields)
  /\ ~ In "__proto__" (map fieldName fields)
  /\ (forall key, In key (map fieldName fields) ->
                  objectPrototype key = JUndefined)
  /\ forall f, In f fields ->
       roundTrips (fieldType f)
       /\ (fieldDefaultValue f = JUndefined
           \/ forall path,
              collected (fieldDefaultValue f) (fieldType f) path
              = (fieldDefaultValue f, [])).
Proof.
  simpl. intros (Hnd & Hproto & Hown & Hall).
  do 3 (split; [assumption|]). clear Hnd Hproto Hown.
  induction fields as [|g rest IH]; intros f Hin; [destruct Hin|].
  destruct Hall as [Hg Hrest]. destruct Hin as [<-|Hin].
  - destruct g. exact Hg.
  - now apply IH.
Qed.

(** A coercion without report does not yield [undefined]. *)
Lemma clean_result_defined type :
  roundTrips type ->
  forall v path r,
    collected v type path = (r, []) -> isUndefined r = false.
Proof.
  induction type as [t IH|t IH|name fields _|name parseValue|name values]
    using GraphQLInputType_induction; intros Hrt v path r Hc.
  - rewrite collected_NonNull in Hc.
    destruct (isNullish v); [discriminate|].
    destruct Hrt as [Hrt _]. eauto.
  - destruct (isNullish v) eqn:Hv.
    { rewrite collected_nullish in Hc by easy. now inversion Hc. }
    destruct (isCollection v) eqn:Hcol.
    + destruct v; try discriminate.
      rewrite collected_List_items in Hc. now inversion Hc.
    + rewrite collected_List_single in Hc by assumption. now inversion Hc.
  - destruct (isNullish v) eqn:Hv.
    { rewrite collected_nullish in Hc by easy. now inversion Hc. }
    destruct (isObjectLike v) eqn:Ho.
    + rewrite collected_Object in Hc by assumption. now inversion Hc.
    + rewrite collected_Object_notObject in Hc by assumption.
      discriminate.
  - destruct (isNullish v) eqn:Hv.
    { rewrite collected_nullish in Hc by easy. now inversion Hc. }
    rewrite collected_Scalar in Hc by assumption.
    destruct (parseValue v) as [y|[e|e]]; try discriminate.
    destruct (isUndefined y) eqn:Hy; [discriminate|]. now inversion Hc; subst.
  - destruct (isNullish v) eqn:Hv.
    { rewrite collected_nullish in Hc by easy. now inversion Hc. }
    rewrite collected_Enum in Hc by assumption.
    destruct v; try discriminate.
    destruct (getValue values s) as [ev|] eqn:Hg; [|discriminate].
    inversion Hc; subst. simpl in Hrt.
    rewrite (Hrt ev) by (now apply getValue_Some in Hg). reflexivity.
Qed.

(** Under a NonNull wrapper, a coercion without report does not yield
    [null] either. *)
Lemma clean_result_not_null type :
  roundTrips type -> nonNullResult type ->
  forall v path r,
    isNullish v = false ->
    collected v type path = (r, []) -> isNullish r = false.
Proof.
  induction type as [t IH|t IH|name fields _|name parseValue|name values]
    using GraphQLInputType_induction; intros Hrt Hnn v path r Hv Hc.
  - rewrite collected_NonNull, Hv in Hc. destruct Hrt as [Hrt _]. eauto.
  - destruct (isCollection v) eqn:Hcol.
    + destruct v; try discriminate.
      rewrite collected_List_items in Hc. now inversion Hc.
    + rewrite collected_List_single in Hc by assumption. now inversion Hc.
  - destruct (isObjectLike v) eqn:Ho.
    + rewrite collected_Object in Hc by assumption. now inversion Hc.
    + rewrite collected_Object_notObject in Hc by assumption.
      discriminate.
  - rewrite collected_Scalar in Hc by assumption.
    destruct (parseValue v) as [y|[e|e]] eqn:Hp; try discriminate.
    destruct (isUndefined y) eqn:Hy; [discriminate|]. inversion Hc; subst.
    destruct r; try reflexivity; try discriminate.
    exfalso. now apply (Hnn v Hv).
  - rewrite collected_Enum in Hc by assumption.
    destruct v; try discriminate.
    destruct (getValue values s) as [ev|] eqn:Hg; [|discriminate].
    inversion Hc; subst. simpl in Hrt.
    rewrite (Hrt ev) by (now apply getValue_Some in Hg). reflexivity.
Qed.

Lemma lookupProp_None props key :
  ~ In key (map fst props) -> lookupProp props key = None.
Proof.
  intros H. rewrite <- (app_nil_r props).
  now rewrite lookupProp_fresh_app.
Qed.

(** With distinct field names, the entry of a field is what a read of
    the result under the field's name finds. *)
Lemma lookup_entries v path fields f :
  NoDup (map fieldName fields) -> In f fields ->
  lookupProp (flat_map (fun g => fst (fieldOutcome v path g)) fields)
    (fieldName f)
  = match fst (fieldOutcome v path f) with
    | [] => None
    | (_, x) :: _ => Some x
    end.
Proof.
  induction fields as [|g rest IH]; simpl; intros Hnd Hin; [destruct Hin|].
  inversion Hnd as [|? ? Hnotin Hnd']; subst.
  destruct Hin as [->|Hin].
  - destruct (fieldOutcome_at_most_one v path f) as [->|[x ->]]; simpl.
    + apply lookupProp_None. intros H. apply entries_keys in H. auto.
    + now rewrite String.eqb_refl.
  - rewrite lookupProp_fresh_app; [now apply IH|].
    intros H. apply in_map_iff in H. destruct H as (kx & Hk & Hkx).
    apply fieldOutcome_keys in Hkx. apply Hnotin.
    rewrite <- Hkx, Hk. now apply in_map.
Qed.

Lemma flat_map_nil {A B : Type} (f : A -> list B) xs :
  flat_map f xs = [] -> forall x, In x xs -> f x = [].
Proof.
  induction xs as [|y rest IH]; simpl; intros H x Hin; [destruct Hin|].
  apply app_eq_nil in H. destruct H as [Hy Hrest].
  destruct Hin as [<-|Hin]; auto.
Qed.

Lemma flat_map_ext_in {A B : Type} (f g : A -> list B) xs :
  (forall x, In x xs -> f x = g x) -> flat_map f xs = flat_map g xs.
Proof.
  induction xs as [|x rest IH]; simpl; intros H; [reflexivity|].
  rewrite H by auto. rewrite IH; auto.
Qed.

Lemma filter_nil {A : Type} (p : A -> bool) xs :
  (forall x, In x xs -> p x = false) -> filter p xs = [].
Proof.
  induction xs as [|x rest IH]; simpl; intros H; [reflexivity|].
  rewrite H by auto. apply IH. auto.
Qed.

(** Re-coercing the entries of a list whose coercion made no report. *)
Lemma recoerce_items t (P P' : nat -> option Path) :
  (forall v path r, collected v t path = (r, []) ->
                    forall path', collected r t path' = (r, [])) ->
  forall items i j,
    List.concat (indexedMap (fun x n => reported x t (P n)) items i) = [] ->
    indexedMap (fun y n => coerced y t (P' n))
      (indexedMap (fun x n => coerced x t (P n)) items i) j
    = indexedMap (fun x n => coerced x t (P n)) items i
    /\ List.concat
         (indexedMap (fun y n => reported y t (P' n))
            (indexedMap (fun x n => coerced x t (P n)) items i) j) = [].
Proof.
  intros IH items. induction items as [|x rest IHr]; intros i j Hc; simpl.
  - auto.
  - simpl in Hc. apply app_eq_nil in Hc. destruct Hc as [Hx Hrest].
    destruct (IHr (S i) (S j) Hrest) as [Hr1 Hr2].
    assert (Hcx : collected x t (P i) = (coerced x t (P i), [])).
    { unfold coerced. unfold reported in Hx.
      destruct (collected x t (P i)); simpl in *. now subst. }
    specialize (IH _ _ _ Hcx (P' j)).
    unfold coerced at 1. unfold reported at 1. rewrite IH. simpl.
    now rewrite Hr1, Hr2.
Qed.

(** C9 (amended). Idempotence: for a type whose scalars have idempotent
    parse functions that yield no [null] under a NonNull wrapper, whose
    enum values carry their own names, whose declared defaults coerce
    to themselves with no report, and whose field names are distinct,
    none of them [__proto__] or the name of a property objects inherit
    from their prototype ([roundTrips]), coercing again the output of a
    coercion that made no report yields the same output and no
    report. *)
Theorem idempotence (type : GraphQLInputType) :
  roundTrips type ->
  forall v path r,
    collected v type path = (r, []) ->
    forall path',
      collected r type path' = (r, [])
      /\ forall S (onError : OnErrorCB S) s,
          coerceInputValueImpl r type onError path' s = Done (r, s).
Proof.
  intros Hrt v path r Hc path'.
  enough (H : collected r type path' = (r, [])).
  { split; [exact H|]. intros S cb s.
    apply collected_iff with (S := S) (cb := cb) (s := s) in H. exact H. }
  revert Hrt v path r Hc path'.
  induction type as [t IH|t IH|name fields IH|name parseValue|name values]
    using GraphQLInputType_induction; intros Hrt v path r Hc path'.
  - (* NonNull *)
    destruct Hrt as [Hrt Hnn].
    rewrite collected_NonNull in Hc.
    destruct (isNullish v) eqn:Hv; [discriminate|].
    rewrite collected_NonNull.
    rewrite (clean_result_not_null t Hrt Hnn v path r Hv Hc).
    eauto.
  - (* List *)
    simpl in Hrt.
    destruct (isNullish v) eqn:Hv.
    { rewrite collected_nullish in Hc by easy. inversion Hc; subst.
      now apply collected_nullish. }
    destruct (isCollection v) eqn:Hcol.
    + destruct v; try discriminate.
      rewrite collected_List_items in Hc. injection Hc as Hr He.
      subst r. rewrite collected_List_items.
      destruct (recoerce_items t
                  (fun i => Some (addPath path (KeyIndex i)))
                  (fun i => Some (addPath path' (KeyIndex i)))
                  (IH Hrt) items 0 0 He) as [H1 H2].
      now rewrite H1, H2.
    + rewrite collected_List_single in Hc by assumption.
      injection Hc as Hr He. subst r.
      assert (Hcv : collected v t path = (coerced v t path, [])).
      { unfold coerced. unfold reported in He.
        destruct (collected v t path); simpl in *. now subst. }
      rewrite collected_List_items. simpl.
      unfold coerced at 1. unfold reported at 1.
      now rewrite (IH Hrt _ _ _ Hcv).
  - (* InputObject *)
    destruct (roundTrips_fields _ _ Hrt) as (Hnd & Hproto & Hown & Hfields).
    rewrite Forall_forall in IH.
    destruct (isNullish v) eqn:Hv.
    { rewrite collected_nullish in Hc by easy. inversion Hc; subst.
      now apply collected_nullish. }
    destruct (isObjectLike v) eqn:Ho.
    2:{ rewrite collected_Object_notObject in Hc by assumption.
        discriminate. }
    rewrite collected_Object in Hc by assumption.
    rewrite fold_fieldUpdate_NoDup in Hc by auto.
    injection Hc as Hr He. subst r.
    apply app_eq_nil in He. destruct He as [Hfr Hunknown].
    pose proof (flat_map_nil _ _ Hfr) as Hclean. clear Hfr.
    set (props := flat_map (fun f => fst (fieldOutcome v path f)) fields).
    assert (Hsame : forall f, In f fields ->
               fieldOutcome (JObj props) path' f
               = (fst (fieldOutcome v path f), [])).
    { intros f Hf.
      assert (Hget : getProp (JObj props) (fieldName f)
                     = match fst (fieldOutcome v path f) with
                       | [] => JUndefined
                       | (_, x) :: _ => x
                       end).
      { unfold getProp, props. rewrite (lookup_entries v path fields f Hnd Hf).
        destruct (fst (fieldOutcome v path f)) as [|[k x] rest];
          [|reflexivity].
        apply Hown. now apply in_map. }
      specialize (Hclean f Hf). destruct (Hfields f Hf) as [Hrtf Hdef].
      specialize (IH f Hf Hrtf).
      unfold fieldOutcome at 1. cbv zeta. rewrite Hget. clear Hget.
      unfold fieldOutcome in Hclean |- *.
      destruct (isUndefined (getProp v (fieldName f))) eqn:Hu.
      - destruct (isUndefined (fieldDefaultValue f)) eqn:Hd;
          cbn [negb fst snd] in Hclean |- *.
        + destruct (isNonNullType (fieldType f)); [discriminate|].
          cbn [fst isUndefined]. reflexivity.
        + cbn [fst]. rewrite Hd.
          destruct Hdef as [Hdef|Hdef].
          * rewrite Hdef in Hd. discriminate.
          * now rewrite Hdef.
      - destruct (collected (getProp v (fieldName f)) (fieldType f)
                    (Some (addPath path (KeyName (fieldName f)))))
          as [x reps] eqn:Hcx.
        cbn [fst snd] in Hclean |- *. subst reps.
        rewrite (clean_result_defined _ Hrtf _ _ _ Hcx).
        now rewrite (IH _ _ _ Hcx). }
    rewrite collected_Object by reflexivity.
    rewrite fold_fieldUpdate_NoDup by auto.
    rewrite (flat_map_ext_in
               (fun f => fst (fieldOutcome (JObj props) path' f))
               (fun f => fst (fieldOutcome v path f)))
      by (intros f Hf; now rewrite Hsame).
    rewrite (flat_map_ext_in
               (fun f => snd (fieldOutcome (JObj props) path' f))
               (fun _ => []))
      by (intros f Hf; now rewrite Hsame).
    rewrite filter_nil.
    + fold props. f_equal. simpl.
      clear. induction fields; simpl; auto.
    + intros key Hkey. simpl in Hkey. apply entries_keys in Hkey.
      apply isDeclared_In in Hkey. now rewrite Hkey.
  - (* Scalar *)
    simpl in Hrt.
    destruct (isNullish v) eqn:Hv.
    { rewrite collected_nullish in Hc by easy. inversion Hc; subst.
      now apply collected_nullish. }
    rewrite collected_Scalar in Hc by assumption.
    destruct (parseValue v) as [y|[e|e]] eqn:Hp; try discriminate.
    destruct (isUndefined y) eqn:Hy; [discriminate|].
    inversion Hc; subst.
    destruct (isNullish r) eqn:Hr.
    + rewrite collected_nullish by easy. destruct r; easy.
    + rewrite collected_Scalar by assumption.
      now rewrite (Hrt _ _ Hp), Hy.
  - (* Enum *)
    simpl in Hrt.
    destruct (isNullish v) eqn:Hv.
    { rewrite collected_nullish in Hc by easy. inversion Hc; subst.
      now apply collected_nullish. }
    rewrite collected_Enum in Hc by assumption.
    destruct v; try discriminate.
    destruct (getValue values s) as [ev|] eqn:Hg; [|discriminate].
    inversion Hc; subst.
    destruct (getValue_Some _ _ _ Hg) as [Hin Hname].
    rewrite (Hrt ev Hin), Hname.
    rewrite collected_Enum by reflexivity. rewrite Hg.
    now rewrite (Hrt ev Hin), Hname.
Qed.

End Properties.

(** ** Further properties of the engine *)

Section Further.
Context {ext : Collaborators}.

(** *** Callbacks *)


(** X4. When the default policy returns a value, it leaves the state as
    it was, and every callback gives the same value without being
    called. *)
Theorem default_success_is_every_success (v : value)
        (type : GraphQLInputType) S (s s' : S) (r : value) :
  coerceInputValue v type (None : option (OnErrorCB S)) s = Done (r, s') ->
  s' = s
  /\ forall S' (onError : OnErrorCB S') (s0 : S'),
      coerceInputValue v type (Some onError) s0 = Done (r, s0).
Proof.
  unfold coerceInputValue. rewrite coerce_replays.
  destruct (reported v type None) as [|rep rest] eqn:Hrep.
  - simpl. intros [= <- <-]. split; [reflexivity|].
    intros S' cb s0. rewrite coerce_replays, Hrep. reflexivity.
  - simpl. unfold bind, defaultOnError, throw. discriminate.
Qed.

(** *** Paths *)

Lemma pathToArray_addPath path key :
  pathToArray (Some (addPath path key)) = pathToArray path ++ [key].
Proof. unfold pathToArray. destruct path; reflexivity. Qed.

Lemma relocate_nil r : relocate [] r = r.
Proof. destruct r. reflexivity. Qed.

Lemma relocate_app p q r : relocate (p ++ q) r = relocate p (relocate q r).
Proof. unfold relocate. simpl. now rewrite app_assoc. Qed.

Lemma map_relocate_nil reports : map (relocate []) reports = reports.
Proof.
  induction reports as [|r rest IH]; simpl; [|rewrite relocate_nil, IH];
    reflexivity.
Qed.

Lemma collected_pair v type path :
  collected v type path = (coerced v type path, reported v type path).
Proof. unfold coerced, reported. now destruct (collected v type path). Qed.

Lemma relocates_items t (P : list PathKey) path :
  relocates t ->
  pathToArray path = P ->
  forall items j,
    indexedMap (fun x i => coerced x t (Some (addPath path (KeyIndex i))))
      items j
    = indexedMap (fun x i => coerced x t (Some (addPath None (KeyIndex i))))
        items j
    /\ List.concat
         (indexedMap
            (fun x i => reported x t (Some (addPath path (KeyIndex i))))
            items j)
       = map (relocate P)
           (List.concat
              (indexedMap
                 (fun x i => reported x t (Some (addPath None (KeyIndex i))))
                 items j)).
Proof.
  intros IH HP items. induction items as [|x rest IHr]; intros j; simpl.
  - auto.
  - destruct (IHr (S j)) as [H1 H2]. rewrite H1, H2. split.
    + f_equal.
      destruct (IH x (Some (addPath path (KeyIndex j)))) as [-> _].
      destruct (IH x (Some (addPath None (KeyIndex j)))) as [-> _].
      reflexivity.
    + rewrite map_app. f_equal.
      destruct (IH x (Some (addPath path (KeyIndex j)))) as [_ ->].
      destruct (IH x (Some (addPath None (KeyIndex j)))) as [_ ->].
      rewrite !pathToArray_addPath, HP, map_map.
      apply map_ext. intros r. simpl. apply relocate_app.
Qed.

Lemma relocates_field v path f :
  relocates (fieldType f) ->
  (forall acc, fieldUpdate v path f acc = fieldUpdate v None f acc)
  /\ fieldReports v path f
     = map (relocate (pathToArray path)) (fieldReports v None f).
Proof.
  intros IH. unfold fieldUpdate, fieldReports.
  destruct (isUndefined (getProp v (fieldName f))).
  - split; [reflexivity|].
    destruct (isUndefined (fieldDefaultValue f)); simpl; [|reflexivity].
    destruct (isNonNullType (fieldType f)); [|reflexivity].
    unfold requiredFieldReport, relocate. simpl. now rewrite app_nil_r.
  - destruct (IH (getProp v (fieldName f))
                (Some (addPath path (KeyName (fieldName f))))) as [Hc Hr].
    destruct (IH (getProp v (fieldName f))
                (Some (addPath None (KeyName (fieldName f))))) as [Hc0 Hr0].
    split.
    + intros acc. now rewrite Hc, Hc0.
    + rewrite Hr, Hr0, !pathToArray_addPath, map_map.
      apply map_ext. intros r. simpl. apply relocate_app.
Qed.

Lemma fold_left_ext_in {A B : Type} (f g : A -> B -> A) xs :
  (forall x, In x xs -> forall a, f a x = g a x) ->
  forall a, fold_left f xs a = fold_left g xs a.
Proof.
  induction xs as [|x rest IH]; simpl; intros H a; [reflexivity|].
  rewrite H by auto. apply IH. auto.
Qed.

Lemma coerce_relocates type : relocates type.
Proof.
  induction type as [t IH|t IH|name fields IH|name parseValue|name values]
    using GraphQLInputType_induction; intros v path;
    apply pair_equal_spec; rewrite <- collected_pair;
    unfold coerced, reported.
  - (* NonNull *)
    rewrite !collected_NonNull. destruct (isNullish v).
    + unfold nonNullReport, relocate. simpl. now rewrite app_nil_r.
    + rewrite (collected_pair v t path). apply pair_equal_spec. apply IH.
  - (* List *)
    destruct (isNullish v) eqn:Hv.
    { now rewrite !collected_nullish. }
    destruct (isCollection v) eqn:Hc.
    + destruct v; try discriminate. rewrite !collected_List_items.
      cbn [fst snd].
      destruct (relocates_items t (pathToArray path) path IH eq_refl items 0)
        as [H1 H2].
      now rewrite H1, H2.
    + rewrite !collected_List_single by assumption. cbn [fst snd].
      destruct (IH v path) as [H1 H2]. now rewrite H1, H2.
  - (* InputObject *)
    rewrite Forall_forall in IH.
    destruct (isNullish v) eqn:Hv.
    { now rewrite !collected_nullish. }
    destruct (isObjectLike v) eqn:Ho.
    + rewrite !collected_Object by assumption. cbn [fst snd].
      apply pair_equal_spec. split.
      * f_equal. apply fold_left_ext_in. intros f Hf acc.
        now apply relocates_field, IH.
      * rewrite map_app. f_equal.
        -- rewrite <- !(flat_map_ext_eq _ _ fields (fieldReports_outcome _ _)).
           rewrite !flat_map_concat_map, concat_map, map_map. f_equal.
           apply map_ext_in. intros f Hf. now apply relocates_field, IH.
        -- rewrite map_map. apply map_ext. intros key.
           unfold unknownFieldReport, relocate. simpl. now rewrite app_nil_r.
    + rewrite !collected_Object_notObject by assumption.
      unfold notAnObjectReport, relocate. simpl. now rewrite app_nil_r.
  - (* Scalar *)
    destruct (isNullish v) eqn:Hv.
    { now rewrite !collected_nullish. }
    rewrite !collected_Scalar by assumption.
    destruct (parseValue v) as [r|[e|e]];
      [destruct (isUndefined r)|..];
      unfold scalarRejectedReport, scalarWrappedReport, relocate; simpl;
      now rewrite ?app_nil_r.
  - (* Enum *)
    destruct (isNullish v) eqn:Hv.
    { now rewrite !collected_nullish. }
    rewrite !collected_Enum by assumption.
    destruct (match v with JStr k => getValue values k | _ => None end);
      [reflexivity|].
    unfold enumReport, relocate. simpl. now rewrite app_nil_r.
Qed.

(** X5. The path argument only prefixes the paths of the reports: the
    coerced value does not depend on it, and the reports at a path are
    the reports at the root with the path put in front of theirs. *)
Theorem path_only_prefixes_reports (v : value) (type : GraphQLInputType)
        (path : option Path) :
  coerced v type path = coerced v type None
  /\ reported v type path
     = map (relocate (pathToArray path)) (reported v type None).
Proof. apply coerce_relocates. Qed.

(** *** Reports and the input *)

Lemma In_concat_indexedMap {A B : Type} (F : A -> nat -> list B) items j r :
  In r (List.concat (indexedMap F items j)) ->
  exists n x, nth_error items n = Some x /\ In r (F x (j + n)).
Proof.
  revert j. induction items as [|y rest IH]; intros j; simpl; [intros []|].
  rewrite in_app_iff. intros [H|H].
  - exists 0, y. rewrite Nat.add_0_r. auto.
  - destruct (IH _ H) as (n & x & Hn & Hin).
    exists (S n), x. rewrite Nat.add_succ_r. auto.
Qed.

Lemma reports_locate type :
  forall v r,
    In r (reported v type None) ->
    navigate v (reportPath r) = Some (invalidValue r).
Proof.
  induction type as [t IH|t IH|name fields IH|name parseValue|name values]
    using GraphQLInputType_induction; intros v r; unfold reported.
  - (* NonNull *)
    rewrite collected_NonNull. destruct (isNullish v).
    + simpl. intros [<-|[]]. reflexivity.
    + apply IH.
  - (* List *)
    destruct (isNullish v) eqn:Hv.
    { rewrite collected_nullish by easy. intros []. }
    destruct (isCollection v) eqn:Hc.
    + destruct v; try discriminate. rewrite collected_List_items.
      cbn [snd]. intros Hin.
      apply In_concat_indexedMap in Hin.
      destruct Hin as (n & x & Hn & Hin). simpl in Hin.
      destruct (coerce_relocates t x (Some (addPath None (KeyIndex n))))
        as [_ Hr].
      rewrite Hr in Hin. apply in_map_iff in Hin.
      destruct Hin as (r0 & <- & Hin0).
      simpl. rewrite Hn. now apply IH.
    + rewrite collected_List_single by assumption. apply IH.
  - (* InputObject *)
    rewrite Forall_forall in IH.
    destruct (isNullish v) eqn:Hv.
    { rewrite collected_nullish by easy. intros []. }
    destruct (isObjectLike v) eqn:Ho.
    + rewrite collected_Object by assumption. cbn [snd].
      rewrite in_app_iff, in_flat_map, in_map_iff.
      intros [(f & Hf & Hin)|(key & <- & _)]; [|reflexivity].
      rewrite <- fieldReports_outcome in Hin. unfold fieldReports in Hin.
      destruct (isUndefined (getProp v (fieldName f))).
      * destruct (isUndefined (fieldDefaultValue f)); simpl in Hin;
          [|destruct Hin].
        destruct (isNonNullType (fieldType f)); [|destruct Hin].
        destruct Hin as [<-|[]]. reflexivity.
      * destruct (coerce_relocates (fieldType f) (getProp v (fieldName f))
                    (Some (addPath None (KeyName (fieldName f)))))
          as [_ Hr].
        rewrite Hr in Hin. apply in_map_iff in Hin.
        destruct Hin as (r0 & <- & Hin0).
        destruct v; try discriminate.
        cbn [relocate reportPath invalidValue pathToArray flattened addPath
             rev app navigate].
        now apply (IH f Hf).
    + rewrite collected_Object_notObject by assumption.
      intros [<-|[]]. reflexivity.
  - (* Scalar *)
    destruct (isNullish v) eqn:Hv.
    { rewrite collected_nullish by easy. intros []. }
    rewrite collected_Scalar by assumption.
    destruct (parseValue v) as [y|[e|e]]; [destruct (isUndefined y)|..];
      simpl; intros H; try destruct H as [<-|[]]; try reflexivity.
    destruct H.
  - (* Enum *)
    destruct (isNullish v) eqn:Hv.
    { rewrite collected_nullish by easy. intros []. }
    rewrite collected_Enum by assumption.
    destruct (match v with JStr k => getValue values k | _ => None end);
      simpl; intros H; [destruct H|].
    destruct H as [<-|[]]. reflexivity.
Qed.

(** X6. The path of a report locates its value: after the current path
    come keys that lead from the input to the value the report carries,
    an index by the element of an array, a name by the property read of
    the engine ([getProp]), which finds an own property of the object
    or one it inherits from its prototype. *)
Theorem report_path_locates_value (v : value) (type : GraphQLInputType)
        (path : option Path) (r : ErrorReport) :
  In r (reported v type path) ->
  exists keys,
    reportPath r = pathToArray path ++ keys
    /\ navigate v keys = Some (invalidValue r).
Proof.
  destruct (coerce_relocates type v path) as [_ ->].
  rewrite in_map_iff. intros (r0 & <- & Hin).
  exists (reportPath r0). split; [reflexivity|].
  cbn [relocate invalidValue]. now apply (reports_locate type).
Qed.

(** *** Values that conform *)

Lemma reported_nil_items t (P : nat -> option Path) :
  (forall v path, reported v t path = [] <-> conforms t v = true) ->
  forall items j,
    List.concat (indexedMap (fun x i => reported x t (P i)) items j) = []
    <-> forallb (conforms t) items = true.
Proof.
  intros IH items. induction items as [|x rest IHr]; intros j; simpl.
  - tauto.
  - rewrite andb_true_iff, <- (IHr (S j)), <- (IH x (P j)).
    split.
    + intros H. now apply app_eq_nil in H.
    + intros [-> ->]. reflexivity.
Qed.

Lemma reported_nil_fields v path fields :
  Forall (fun f => forall x p, reported x (fieldType f) p = []
                               <-> conforms (fieldType f) x = true) fields ->
  flat_map (fieldReports v path) fields = []
  <-> forallb
        (fun field =>
           let fieldValue := getProp v (fieldName field) in
           if isUndefined fieldValue then
             negb (isUndefined (fieldDefaultValue field))
             || negb (isNonNullType (fieldType field))
           else conforms (fieldType field) fieldValue)
        fields = true.
Proof.
  induction 1 as [|f rest Hf _ IH]; simpl.
  - tauto.
  - rewrite andb_true_iff, <- IH.
    assert (Hone : fieldReports v path f = []
                   <-> (if isUndefined (getProp v (fieldName f))
                        then negb (isUndefined (fieldDefaultValue f))
                             || negb (isNonNullType (fieldType f))
                        else conforms (fieldType f)
                               (getProp v (fieldName f))) = true).
    { unfold fieldReports.
      destruct (isUndefined (getProp v (fieldName f))).
      - destruct (isUndefined (fieldDefaultValue f)); simpl; [|tauto].
        destruct (isNonNullType (fieldType f)); simpl; [|tauto].
        split; discriminate.
      - apply Hf. }
    rewrite <- Hone. split.
    + intros H. now apply app_eq_nil in H.
    + intros [-> ->]. reflexivity.
Qed.

Lemma unknown_nil_keys {A : Type} (g : string -> A) fields keys :
  map g (filter (fun key => negb (isDeclared fields key)) keys) = []
  <-> forallb (isDeclared fields) keys = true.
Proof.
  induction keys as [|k rest IH]; simpl.
  - tauto.
  - destruct (isDeclared fields k); simpl; [exact IH|].
    split; discriminate.
Qed.

Lemma reported_nil_iff_conforms type :
  forall v path, reported v type path = [] <-> conforms type v = true.
Proof.
  induction type as [t IH|t IH|name fields IH|name parseValue|name values]
    using GraphQLInputType_induction; intros v path; unfold reported.
  - (* NonNull *)
    rewrite collected_NonNull. simpl. destruct (isNullish v); simpl.
    + split; discriminate.
    + apply IH.
  - (* List *)
    simpl. destruct (isNullish v) eqn:Hv.
    { rewrite collected_nullish by easy. simpl. tauto. }
    destruct (isCollection v) eqn:Hc; simpl.
    + destruct v; try discriminate. rewrite collected_List_items.
      cbn [snd collectionItems].
      now apply (reported_nil_items t
                   (fun i => Some (addPath path (KeyIndex i)))).
    + rewrite collected_List_single by assumption. apply IH.
  - (* InputObject *)
    simpl. destruct (isNullish v) eqn:Hv.
    { rewrite collected_nullish by easy. simpl. tauto. }
    destruct (isObjectLike v) eqn:Ho; simpl.
    + rewrite collected_Object by assumption. cbn [snd].
      rewrite <- (flat_map_ext_eq _ _ fields (fieldReports_outcome v path)).
      rewrite andb_true_iff.
      rewrite <- (reported_nil_fields v path fields IH).
      rewrite <- (unknown_nil_keys
                    (unknownFieldReport name fields path v) fields
                    (Object_keys v)).
      split.
      * intros H. now apply app_eq_nil in H.
      * intros [-> ->]. reflexivity.
    + rewrite collected_Object_notObject by assumption.
      split; discriminate.
  - (* Scalar *)
    simpl. destruct (isNullish v) eqn:Hv.
    { rewrite collected_nullish by easy. simpl. tauto. }
    rewrite collected_Scalar by assumption. simpl.
    destruct (parseValue v) as [y|[e|e]]; simpl; try (split; discriminate).
    destruct (isUndefined y); simpl; [split; discriminate|tauto].
  - (* Enum *)
    simpl. destruct (isNullish v) eqn:Hv.
    { rewrite collected_nullish by easy. simpl. tauto. }
    rewrite collected_Enum by assumption. simpl.
    destruct v; simpl; try (split; discriminate).
    destruct (getValue values s); simpl; [tauto|split; discriminate].
Qed.

(** X7. The values that conform to the type are exactly those on which
    the engine returns without calling the callback, whatever the
    callback is: a non-null value under NonNull, every element of a
    sequence (or the value itself, taken as a list of one) under List, a
    record with no undeclared key, no missing required field and
    conforming present fields (read as the engine reads them, own or
    inherited) under an input object, a value the parse function returns
    a result for under a scalar, the name of a declared value under an
    enum, and [null] or [undefined] under every type that is not
    NonNull. *)
Theorem no_report_iff_conforms (v : value) (type : GraphQLInputType)
        (path : option Path) :
  conforms type v = true
  <-> forall S (onError : OnErrorCB S) (s : S),
        coerceInputValueImpl v type onError path s
        = Done (coerced v type path, s).
Proof.
  rewrite <- (reported_nil_iff_conforms type v path). split.
  - intros Hnil S cb s. now rewrite coerce_replays, Hnil.
  - intros Hrun. specialize (Hrun _ collectErrors []).
    rewrite coerce_collected in Hrun. now injection Hrun as Hnil.
Qed.

(** X8. The default policy returns a value on the conforming inputs and
    throws on all the others. *)
Theorem default_policy_returns_iff_conforms (v : value)
        (type : GraphQLInputType) S (s : S) :
  (exists r, coerceInputValue v type (None : option (OnErrorCB S)) s
             = Done (r, s))
  <-> conforms type v = true.
Proof.
  rewrite <- (reported_nil_iff_conforms type v None).
  unfold coerceInputValue. rewrite coerce_replays.
  destruct (reported v type None) as [|rep rest]; simpl.
  - split; [reflexivity|]. intros _. eexists. reflexivity.
  - unfold bind, defaultOnError, throw.
    split; [intros [r H]; discriminate|discriminate].
Qed.

(** *** The coerced object *)



(** X10. The coerced object depends on the input only through what the
    property read of the engine, own or inherited, finds under the names
    of the declared fields: two records that agree on these reads coerce
    to the same object, whatever other keys they have. *)
Theorem coerced_object_reads_declared_fields (name : string)
        (fields : list GraphQLInputField) (v v' : value)
        (path : option Path) :
  isObjectLike v = true ->
  isObjectLike v' = true ->
  (forall f, In f fields ->
             getProp v (fieldName f) = getProp v' (fieldName f)) ->
  coerced v (GraphQLInputObjectType name fields) path
  = coerced v' (GraphQLInputObjectType name fields) path.
Proof.
  intros Ho Ho' Hsame. unfold coerced.
  rewrite !collected_Object by assumption. cbn [fst]. f_equal.
  apply fold_left_ext_in. intros f Hf acc.
  unfold fieldUpdate. now rewrite (Hsame f Hf).
Qed.

(** *** Lists of lists *)


End Further.

(** ** The engine on concrete inputs *)

#[local] Existing Instance Sample.collaborators.

Module Examples.
Import Sample.

(** List(NonNull(Int)) on [[1, null, 3]]: the failed element leaves a
    hole, and its report carries the path [[1]]. *)
Example list_with_hole :
  collected (JArr [JNum 1; JNull; JNum 3]) (GraphQLList (GraphQLNonNull Int))
    None
  = (JArr [JNum 1; JUndefined; JNum 3],
     [mkReport [KeyIndex 1] JNull
        (newGraphQLError
           ("Expected non-nullable type " ++ quoted "Int!"
            ++ " not to be null.")%string)]).
Proof. reflexivity. Qed.

(** A value that is no sequence is coerced as a list of one. *)
Example list_of_one :
  collected (JNum 7) (GraphQLList Int) None = (JArr [JNum 7], []).
Proof. reflexivity. Qed.

(** Item on [{ id: 5, color: "RED" }]: the default of [tag] is filled in,
    the unknown key is reported and left out. *)
Example item_default_and_unknown_key :
  collected (JObj [("id", JNum 5); ("color", JStr "RED")]) Item None
  = (JObj [("id", JNum 5); ("tag", JStr "RED")],
     [mkReport [] (JObj [("id", JNum 5); ("color", JStr "RED")])
        (newGraphQLError
           ("Field " ++ quoted "color" ++ " is not defined by type "
            ++ quoted "Item" ++ ".")%string)]).
Proof. reflexivity. Qed.

(** The same input under the default policy: the first report is
    raised. *)
Example item_fail_fast :
  coerceInputValue (JObj [("id", JNum 5); ("color", JStr "RED")]) Item
    (None : option (OnErrorCB unit)) tt
  = Threw
      (ThrownGraphQLError
         (newGraphQLError
            ("Invalid value [object Object]: Field " ++ quoted "color"
             ++ " is not defined by type " ++ quoted "Item" ++ ".")%string)).
Proof. reflexivity. Qed.

(** A missing required field is reported and left out; a present field
    whose coercion fails is written as [undefined]. *)
Example item_missing_and_failed :
  collected (JObj []) Item None
  = (JObj [("tag", JStr "RED")],
     [mkReport [] (JObj [])
        (newGraphQLError
           ("Field " ++ quoted "id" ++ " of required type " ++ quoted "Int!"
            ++ " was not provided.")%string)])
  /\ fst (collected (JObj [("id", JStr "x"); ("tag", JNull)]) Item None)
     = JObj [("id", JUndefined); ("tag", JNull)].
Proof. split; reflexivity. Qed.

(** The key [naem] against a type that declares [name]: one report, and
    the stand-in ranking suggests [name]. *)
Example misspelt_key :
  collected (JObj [("naem", JStr "RED")]) Person None
  = (JObj [],
     [mkReport [] (JObj [("naem", JStr "RED")])
        (newGraphQLError
           ("Field " ++ quoted "naem" ++ " is not defined by type "
            ++ quoted "Person" ++ ". Did you mean " ++ quoted "name"
            ++ "?")%string)]).
Proof. reflexivity. Qed.

(** Errors below the root carry the path, and the default policy renders
    it. *)
Example nested_path_fail_fast :
  coerceInputValue (JArr [JObj [("id", JNum 1)]; JObj [("id", JStr "x")]])
    (GraphQLList Item) (None : option (OnErrorCB unit)) tt
  = Threw
      (ThrownGraphQLError
         (mkGraphQLError
            ("Invalid value x at " ++ quoted "value[1].id"
             ++ ": Expected type " ++ quoted "Int"
             ++ ". Int cannot represent non-integer value")%string
            (Some (mkJSError "Int cannot represent non-integer value")))).
Proof. reflexivity. Qed.

(** A default no coercion would accept is copied as it is. *)
Example default_not_coerced :
  collected (JObj []) Odd None = (JObj [("n", JStr "as it is")], []).
Proof. reflexivity. Qed.

(** Such a default does not survive a second coercion, although the only
    scalar of the type never returns. *)
Example default_not_stable :
  scalarsRoundTrip Odd
  /\ snd (collected (JObj [("n", JStr "as it is")]) Odd None) <> [].
Proof.
  split.
  - simpl. split; [discriminate|exact I].
  - discriminate.
Qed.

(** A scalar with an idempotent parse function that yields [null]: under
    NonNull its output does not survive a second coercion. *)
Example null_under_NonNull_not_stable :
  scalarsRoundTrip (GraphQLNonNull Nothing)
  /\ collected (JNum 1) (GraphQLNonNull Nothing) None = (JNull, [])
  /\ snd (collected JNull (GraphQLNonNull Nothing) None) <> [].
Proof.
  split; [|split].
  - simpl. intros x y [= <-]. reflexivity.
  - reflexivity.
  - discriminate.
Qed.

(** A record with no property of its own under a declared name that
    objects inherit: the engine reads the inherited function and coerces
    it; the report carries the function at the path of the field. *)
Example inherited_property_is_read :
  collected (JObj []) Made None
  = (JObj [("constructor", JUndefined)],
     [mkReport [KeyName "constructor"] (JFunction "Object")
        (mkGraphQLError
           ("Expected type " ++ quoted "Int"
            ++ ". Int cannot represent non-integer value")%string
           (Some (mkJSError "Int cannot represent non-integer value")))])
  /\ conforms Made (JObj []) = false.
Proof. split; reflexivity. Qed.

(** A clean coercion whose output does not coerce again: the property
    [constructor: undefined] of the input hides the inherited one, the
    output has no such property. *)
Example inherited_property_not_stable :
  collected (JObj [("constructor", JUndefined)]) Made None = (JObj [], [])
  /\ snd (collected (JObj []) Made None) <> [].
Proof. split; [reflexivity|discriminate]. Qed.

(** [parseValue] is called once for each value that reaches a scalar,
    and not at all for [null]. *)
Example parseValue_calls_counted :
  coerceInputValueImplWith countingCall (JStr "x") Int ignoreErrors None 0
  = Done (JUndefined, 1)
  /\ coerceInputValueImplWith countingCall JNull Int ignoreErrors None 0
     = Done (JNull, 0)
  /\ coerceInputValueImplWith countingCall (JArr [JNum 1; JNull; JStr "x"])
       (GraphQLList Int) ignoreErrors None 0
     = Done (JArr [JNum 1; JNull; JUndefined], 2).
Proof. repeat split. Qed.

End Examples.

(** ** Where the spec's sentences go too far *)



(** C4, as stated, at [null]: [parseValue] would throw, yet it is not
    called: no report is made and the result is [null]. *)
Lemma scalar_null_counterexample :
  coerceInputValueImpl JNull Sample.Never collectErrors None []
  = Done (JNull, [])
  /\ scalarDispatch collectErrors "Never"
       (fun _ => Raised (ThrownError (mkJSError "no value is accepted")))
       JNull None []
     = Done (JUndefined,
             [scalarWrappedReport "Never" None JNull
                (mkJSError "no value is accepted")])
  /\ coerceInputValueImpl JNull Sample.Never collectErrors None []
     <> scalarDispatch collectErrors "Never"
          (fun _ => Raised (ThrownError (mkJSError "no value is accepted")))
          JNull None [].
Proof. repeat split; try reflexivity. discriminate. Qed.


(** C9, as stated, on an enum whose values carry numbers: the type has no
    scalar, the name [RED] coerces to [0] with no report, and [0] does not
    coerce again. *)
Lemma idempotence_counterexample :
  scalarsRoundTrip Sample.Color
  /\ collected (JStr "RED") Sample.Color None = (JNum 0, [])
  /\ collected (JNum 0) Sample.Color None
     = (JUndefined,
        [mkReport [] (JNum 0)
           (newGraphQLError ("Expected type " ++ quoted "Color" ++ ".")%string)])
  /\ collected (JNum 0) Sample.Color None <> (JNum 0, []).
Proof. repeat split; try reflexivity. discriminate. Qed.


(** ** The theorems at concrete inputs *)

Lemma NoDup_itemFields : NoDup (map fieldName Sample.itemFields).
Proof.
  repeat (constructor; [simpl; intuition discriminate|]). constructor.
Qed.

Lemma itemFields_no_proto :
  ~ In "__proto__" (map fieldName Sample.itemFields).
Proof. simpl. intros [H|[H|[]]]; discriminate. Qed.

Lemma Item_roundTrips : roundTrips Sample.Item.
Proof.
  simpl. split; [exact NoDup_itemFields|].
  split; [exact itemFields_no_proto|].
  split; [intros key [<-|[<-|[]]]; reflexivity|].
  repeat split.
  - intros x y. destruct x; simpl; intros [= <-]; reflexivity.
  - intros x _. destruct x; discriminate.
  - left. reflexivity.
  - intros ev [<-|[<-|[]]]; reflexivity.
  - right. intros path. reflexivity.
Qed.

Lemma null_passthrough_witness :
  coerceInputValueImpl JUndefined Sample.Color
    (defaultOnError : OnErrorCB unit) None tt
  = Done (JNull, tt)
  /\ collected JUndefined Sample.Color None = (JNull, []).
Proof.
  apply (null_passthrough Sample.Color JUndefined None unit defaultOnError tt);
    reflexivity.
Defined.

Lemma scalar_handling_witness :
  coerceInputValueImplWith Sample.countingCall (JStr "x") Sample.Int
    Sample.ignoreErrors None 0
  = Done (JUndefined, 1)
  /\ coerceInputValueImpl (JStr "x") Sample.Int collectErrors None []
     = Done (JUndefined,
             [scalarWrappedReport "Int" None (JStr "x")
                (mkJSError "Int cannot represent non-integer value")])
  /\ coerceInputValueImpl (JNum 1) Sample.Nothing collectErrors None []
     = Done (JNull, []).
Proof.
  split; [|split].
  - destruct (scalar_handling "Int"
                (fun v =>
                   match v with
                   | JNum n => Returned (JNum n)
                   | _ =>
                       Raised
                         (ThrownError
                            (mkJSError
                               "Int cannot represent non-integer value"))
                   end)
                (JStr "x") None nat Sample.ignoreErrors 0) as [H _].
    exact (H Sample.countingCall).
  - destruct (scalar_handling "Int"
                (fun v =>
                   match v with
                   | JNum n => Returned (JNum n)
                   | _ =>
                       Raised
                         (ThrownError
                            (mkJSError
                               "Int cannot represent non-integer value"))
                   end)
                (JStr "x") None (list ErrorReport) collectErrors [])
      as (_ & H & _).
    exact (H eq_refl).
  - destruct (scalar_handling "Nothing" (fun _ => Returned JNull)
                (JNum 1) None (list ErrorReport) collectErrors [])
      as (_ & _ & H).
    exact (H eq_refl eq_refl).
Defined.






Lemma idempotence_witness :
  collected (JObj [("id", JNum 5)]) Sample.Item None
  = (JObj [("id", JNum 5); ("tag", JStr "RED")], [])
  /\ collected (JObj [("id", JNum 5); ("tag", JStr "RED")]) Sample.Item None
     = (JObj [("id", JNum 5); ("tag", JStr "RED")], []).
Proof.
  split; [reflexivity|].
  destruct (idempotence Sample.Item Item_roundTrips
              (JObj [("id", JNum 5)]) None
              (JObj [("id", JNum 5); ("tag", JStr "RED")]) eq_refl None)
    as [H _].
  exact H.
Defined.

(** ** The further properties at concrete inputs *)

Lemma default_success_is_every_success_witness :
  tt = tt
  /\ forall S' (onError : OnErrorCB S') (s0 : S'),
      coerceInputValue (JNum 7) (GraphQLList Sample.Int) (Some onError) s0
      = Done (JArr [JNum 7], s0).
Proof.
  apply (default_success_is_every_success (JNum 7) (GraphQLList Sample.Int)
           unit tt tt (JArr [JNum 7])).
  reflexivity.
Defined.

Lemma report_path_locates_value_witness :
  exists keys,
    [KeyIndex 1] = pathToArray None ++ keys
    /\ navigate (JArr [JNum 1; JNull; JNum 3]) keys = Some JNull.
Proof.
  apply (report_path_locates_value (JArr [JNum 1; JNull; JNum 3])
           (GraphQLList (GraphQLNonNull Sample.Int)) None
           (nonNullReport (GraphQLNonNull Sample.Int)
              (Some (addPath None (KeyIndex 1))) JNull)).
  left. reflexivity.
Defined.

Lemma no_report_iff_conforms_witness :
  coerceInputValueImpl (JObj [("id", JNum 5)]) Sample.Item
    (defaultOnError : OnErrorCB unit) None tt
  = Done (JObj [("id", JNum 5); ("tag", JStr "RED")], tt).
Proof.
  refine (proj1 (no_report_iff_conforms (JObj [("id", JNum 5)]) Sample.Item
                   None) _ unit defaultOnError tt).
  reflexivity.
Defined.

Lemma default_policy_returns_iff_conforms_witness :
  exists r,
    coerceInputValue (JObj [("id", JNum 5)]) Sample.Item
      (None : option (OnErrorCB unit)) tt
    = Done (r, tt).
Proof.
  apply (proj2 (default_policy_returns_iff_conforms (JObj [("id", JNum 5)])
                  Sample.Item unit tt)).
  reflexivity.
Defined.


Lemma coerced_object_reads_declared_fields_witness :
  coerced (JObj [("color", JStr "RED"); ("id", JNum 5); ("tag", JUndefined)])
    Sample.Item None
  = coerced (JObj [("id", JNum 5)]) Sample.Item None.
Proof.
  apply (coerced_object_reads_declared_fields "Item" Sample.itemFields
           (JObj [("color", JStr "RED"); ("id", JNum 5); ("tag", JUndefined)])
           (JObj [("id", JNum 5)]) None).
  - reflexivity.
  - reflexivity.
  - intros f [<-|[<-|[]]]; reflexivity.
Defined.

